(** * Background job queue of apex-boilerplate: port and both backends

    Shallow embedding of
    - [apex-core/src/ports/job_queue.rs]   (Job, JobResult, JobQueueError),
    - [apex-infra/src/jobs/memory.rs]      (InMemoryJobQueue),
    - [apex-infra/src/jobs/redis.rs]       (RedisJobQueue).

    One iteration of a worker's [loop { ... }] is a step function on an
    explicit queue state.  Rust integers keep their widths: [u32] for the
    attempt counters and [usize] for the statistics, both as [Z] with the
    wrap-around written out (the atomic [fetch_add]/[fetch_sub] wrap). *)

From Stdlib Require Import ZArith List Ascii String Lia.
Import ListNotations.
Open Scope Z_scope.
Open Scope bool_scope.

(* ------------------------------------------------------------------ *)
(** ** Machine integers *)

Definition U32_MODULUS : Z := 2 ^ 32.
Definition USIZE_MODULUS : Z := 2 ^ 64.

(** [x += 1] on a [u32] (release build: wraps). *)
Definition u32_incr (x : Z) : Z := (x + 1) mod U32_MODULUS.

(** [AtomicUsize::fetch_add] / [fetch_sub]: wrap around on overflow. *)
Definition usize_add (x y : Z) : Z := (x + y) mod USIZE_MODULUS.
Definition usize_sub (x y : Z) : Z := (x - y) mod USIZE_MODULUS.

Definition is_usize (x : Z) : Prop := 0 <= x < USIZE_MODULUS.
Definition is_u32 (x : Z) : Prop := 0 <= x < U32_MODULUS.

(* ------------------------------------------------------------------ *)
(** ** [ports/job_queue.rs] *)

(** Timestamps ([chrono::DateTime<Utc>]) as milliseconds since the epoch;
    the payload ([serde_json::Value]) is kept opaque as its text. *)
Record Job := mkJob {
  id : string;
  job_type : string;
  payload : string;
  attempts : Z;          (* u32 *)
  max_attempts : Z;      (* u32 *)
  created_at : Z;
  scheduled_at : option Z
}.

(** [Job::new], with the clock reading and the fresh uuid as inputs. *)
Definition Job_new (now : Z) (uuid : string) (job_type : string) (payload : string) : Job :=
  mkJob uuid job_type payload 0 3 now None.

(** [Job::with_max_attempts] *)
Definition with_max_attempts (j : Job) (max : Z) : Job :=
  mkJob (id j) (job_type j) (payload j) (attempts j) max (created_at j) (scheduled_at j).

(** [Job::delayed]: [scheduled_at = Some(Utc::now() + delay)]. *)
Definition delayed (j : Job) (now delay : Z) : Job :=
  mkJob (id j) (job_type j) (payload j) (attempts j) (max_attempts j) (created_at j)
        (Some (now + delay)).

(** [job.attempts += 1] *)
Definition bump_attempts (j : Job) : Job :=
  mkJob (id j) (job_type j) (payload j) (u32_incr (attempts j)) (max_attempts j)
        (created_at j) (scheduled_at j).

Inductive JobResult :=
| Success
| Retry (reason : string)
| Failed (reason : string).

(** What awaiting [handler(job.clone())] produces: an outcome, or a panic
    unwinding out of the future. *)
Inductive HandlerOutcome :=
| Returned (r : JobResult)
| Panicked.

Definition Handler := Job -> HandlerOutcome.

Inductive JobQueueError :=
| EnqueueError (msg : string)
| QueueFull
| Backend (msg : string).

Inductive Result (A E : Type) :=
| Ok (a : A)
| Err (e : E).
Arguments Ok {A E} a.
Arguments Err {A E} e.

(** [QueueStats] / the [JobStats] atomics (all [usize]). *)
Record JobStats := mkStats {
  pending : Z;
  processing : Z;
  completed : Z;
  failed : Z
}.

Definition stats_wf (s : JobStats) : Prop :=
  is_usize (pending s) /\ is_usize (processing s) /\
  is_usize (completed s) /\ is_usize (failed s).

Definition pending_add (s : JobStats) (d : Z) : JobStats :=
  mkStats (usize_add (pending s) d) (processing s) (completed s) (failed s).
Definition pending_sub (s : JobStats) (d : Z) : JobStats :=
  mkStats (usize_sub (pending s) d) (processing s) (completed s) (failed s).
Definition processing_add (s : JobStats) (d : Z) : JobStats :=
  mkStats (pending s) (usize_add (processing s) d) (completed s) (failed s).
Definition processing_sub (s : JobStats) (d : Z) : JobStats :=
  mkStats (pending s) (usize_sub (processing s) d) (completed s) (failed s).
Definition completed_add (s : JobStats) (d : Z) : JobStats :=
  mkStats (pending s) (processing s) (usize_add (completed s) d) (failed s).
Definition failed_add (s : JobStats) (d : Z) : JobStats :=
  mkStats (pending s) (processing s) (completed s) (usize_add (failed s) d).

(** [tracing] records emitted at warn and error level. *)
Inductive Log :=
| LogWarn (msg : string)
| LogError (msg : string).

(** How one pass of a worker's [loop] ends: go round again, [break], or
    a panic that unwinds out of the spawned task. *)
Inductive Flow :=
| Continue
| Break
| Unwind.

(** Result of one pass of a worker loop: the next state, how the pass
    ended, and the job handed to the handler, if any. *)
Record Pass (S : Type) := mkPass {
  next : S;
  flow : Flow;
  invoked : option Job
}.
Arguments mkPass {S} next flow invoked.
Arguments next {S} p.
Arguments flow {S} p.
Arguments invoked {S} p.

(** The handler calls made by a pass, as a list. *)
Definition calls_of (o : option Job) : list Job :=
  match o with Some j => [j] | None => [] end.

(* ------------------------------------------------------------------ *)
(** ** [jobs/memory.rs]: [InMemoryJobQueue] *)

Module Memory.

(** [InMemoryJobQueueConfig] *)
Record Config := mkConfig {
  max_size : Z;     (* usize, 0 = unlimited *)
  workers : Z
}.

Definition default_config : Config := mkConfig 10000 4.

(** The queue: its stats, the mpsc channel's buffered jobs, whether the
    receiving half is still alive (a [send] fails once it is dropped) and
    whether a sender is still alive ([recv] yields [None] only when all are
    dropped and the buffer is empty).  [timers] are the tasks spawned for a
    retry, each sleeping [delay] milliseconds before its [sender.send(job)]. *)
Record Queue := mkQueue {
  stats : JobStats;
  chan : list Job;
  rx_open : bool;
  tx_open : bool;
  timers : list (Z * Job);
  logs : list Log
}.

Definition set_stats (q : Queue) (s : JobStats) : Queue :=
  mkQueue s (chan q) (rx_open q) (tx_open q) (timers q) (logs q).
Definition set_chan (q : Queue) (c : list Job) : Queue :=
  mkQueue (stats q) c (rx_open q) (tx_open q) (timers q) (logs q).
Definition set_timers (q : Queue) (t : list (Z * Job)) : Queue :=
  mkQueue (stats q) (chan q) (rx_open q) (tx_open q) t (logs q).
Definition log (q : Queue) (l : Log) : Queue :=
  mkQueue (stats q) (chan q) (rx_open q) (tx_open q) (timers q) (logs q ++ [l]).

(** The bound of the channel: [mpsc::channel(config.max_size.max(100))]. *)
Definition capacity (cfg : Config) : Z := Z.max (max_size cfg) 100.

(** Whether a [send] finds room in the channel. *)
Definition has_room (cfg : Config) (q : Queue) : bool :=
  Z.of_nat (List.length (chan q)) <? capacity cfg.

(** [job_sender.send(job).await] when it does not have to wait: appends to
    the channel, or fails when the receiver is gone.  A send into a full
    channel ([has_room] false) waits until a worker takes a job out; that
    wait is not represented here, so the properties below that go through
    [send] ([enqueue], [fire_retry]) assume [has_room] or an empty channel. *)
Definition send (q : Queue) (j : Job) : option Queue :=
  if rx_open q then Some (set_chan q (chan q ++ [j])) else None.

(** [JobQueue::enqueue], for a [send] that does not wait.  The queue holds
    its receiver ([job_receiver]) for as long as it lives, so the
    [EnqueueError] branch is not reached through a live queue. *)
Definition enqueue (cfg : Config) (q : Queue) (j : Job) : Queue * Result unit JobQueueError :=
  if (0 <? max_size cfg) && (max_size cfg <=? pending (stats q)) then
    (q, Err QueueFull)
  else
    let q1 := set_stats q (pending_add (stats q) 1) in
    match send q1 j with
    | Some q2 => (q2, Ok tt)
    | None => (q1, Err (EnqueueError "channel closed"%string))
    end.

(** [JobQueue::enqueue] whose future the caller drops while [send] waits
    on a full channel (line 97): the [fetch_add] at line 93 has run, the
    job is never sent. *)
Definition enqueue_cancelled (cfg : Config) (q : Queue) (j : Job) : Queue :=
  if (0 <? max_size cfg) && (max_size cfg <=? pending (stats q)) then q
  else set_stats q (pending_add (stats q) 1).

(** The handling of one received job inside [start_worker]'s loop
    (lines 133-192). *)
Definition process (h : Handler) (q : Queue) (job0 : Job) : Pass Queue :=
  let s1 := processing_add (pending_sub (stats q) 1) 1 in
  let job := bump_attempts job0 in
  match h job with
  | Panicked => mkPass (set_stats q s1) Unwind (Some job)
  | Returned r =>
    let s2 := processing_sub s1 1 in
    match r with
    | Success => mkPass (set_stats q (completed_add s2 1)) Continue (Some job)
    | Retry reason =>
      if attempts job <? max_attempts job then
        let q1 := log q (LogWarn "Job failed, will retry"%string) in
        let q2 := set_timers q1 (timers q1 ++ [(100 * attempts job, job)]) in
        mkPass (set_stats q2 (pending_add s2 1)) Continue (Some job)
      else
        let q1 := log q (LogError "Job failed after max retries"%string) in
        mkPass (set_stats q1 (failed_add s2 1)) Continue (Some job)
    | Failed reason =>
      let q1 := log q (LogError "Job failed permanently"%string) in
      mkPass (set_stats q1 (failed_add s2 1)) Continue (Some job)
    end
  end.

(** One pass of a worker's loop: [rx.recv().await], then the match on it.
    [None] means the worker is blocked in [recv] (empty buffer, senders
    alive). *)
Definition worker_pass (h : Handler) (q : Queue) : option (Pass Queue) :=
  match chan q with
  | job :: rest => Some (process h (set_chan q rest) job)
  | [] => if tx_open q then None else Some (mkPass q Break None)
  end.

(** The first spawned retry task wakes up and runs [sender.send(job)];
    on failure it only logs. *)
Definition fire_retry (q : Queue) : option Queue :=
  match timers q with
  | [] => None
  | (_, job) :: rest =>
    let q1 := set_timers q rest in
    match send q1 job with
    | Some q2 => Some q2
    | None => Some (log q1 (LogError "Failed to re-enqueue job for retry"%string))
    end
  end.

(** A single worker and the retry tasks, run until the worker leaves its
    loop or nothing is left to do; returns the final state and the jobs
    handed to the handler, in order. *)
Fixpoint run (h : Handler) (fuel : nat) (q : Queue) : Queue * list Job :=
  match fuel with
  | O => (q, [])
  | S n =>
    match worker_pass h q with
    | Some p =>
      let calls := calls_of (invoked p) in
      match flow p with
      | Continue => let '(q', cs) := run h n (next p) in (q', calls ++ cs)
      | _ => (next p, calls)
      end
    | None =>
      match fire_retry q with
      | Some q1 => run h n q1
      | None => (q, [])
      end
    end
  end.

End Memory.

(* ------------------------------------------------------------------ *)
(** ** [jobs/redis.rs]: [RedisJobQueue] *)

Module Redis.

Section RedisQueue.

(** The list holds serialized jobs: [serde_json::to_string] and
    [serde_json::from_str::<Job>] over the list's element type.  Both are
    kept abstract; [from_str] fails on data that is not a [Job].
    ([to_string] of a [Job] does not fail, which the [unwrap] at line 208
    relies on.) *)
Variable Json : Type.
Variable to_string : Job -> Json.
Variable from_str : Json -> option Job.

(** The Redis side: the list at [{queue_name}:pending]; the process side:
    the stats, the shared [running] flag and the log. *)
Record Queue := mkQueue {
  stats : JobStats;
  pending_list : list Json;
  running : bool;
  logs : list Log
}.

Definition set_stats (q : Queue) (s : JobStats) : Queue :=
  mkQueue s (pending_list q) (running q) (logs q).
Definition set_list (q : Queue) (l : list Json) : Queue :=
  mkQueue (stats q) l (running q) (logs q).
Definition log (q : Queue) (l : Log) : Queue :=
  mkQueue (stats q) (pending_list q) (running q) (logs q ++ [l]).

(** [conn.rpush(&pending_key, &job_json)]; [conn_ok] is whether the
    command succeeds.  A failed command here is one the server did not
    apply; a reply lost after the server applied it is
    [enqueue_reply_lost] below. *)
Definition rpush (conn_ok : bool) (q : Queue) (v : Json) : option Queue :=
  if conn_ok then Some (set_list q (pending_list q ++ [v])) else None.

(** [JobQueue::enqueue] *)
Definition enqueue (conn_ok : bool) (q : Queue) (j : Job) : Queue * Result unit JobQueueError :=
  match rpush conn_ok q (to_string j) with
  | Some q1 => (set_stats q1 (pending_add (stats q1) 1), Ok tt)
  | None => (q, Err (Backend "connection error"%string))
  end.

(** [JobQueue::enqueue] whose [RPUSH] reply is lost after the server
    appended the value (connection reset, response timeout): the list
    holds the job, and the [?] at line 121 returns [Backend] before the
    [fetch_add]. *)
Definition enqueue_reply_lost (q : Queue) (j : Job) : Queue * Result unit JobQueueError :=
  (set_list q (pending_list q ++ [to_string j]), Err (Backend "connection error"%string)).

(** Another writer appending raw data to the same Redis list. *)
Definition external_push (q : Queue) (v : Json) : Queue :=
  set_list q (pending_list q ++ [v]).

(** Lines 174-237, for a value popped from the list; [push_ok] is whether
    the retry's [rpush] succeeds. *)
Definition process (h : Handler) (push_ok : bool) (q : Queue) (job_json : Json) : Pass Queue :=
  match from_str job_json with
  | None =>
    let q1 := log q (LogError "Failed to deserialize job"%string) in
    mkPass (set_stats q1 (failed_add (stats q1) 1)) Continue None
  | Some job0 =>
    let s1 := processing_add (pending_sub (stats q) 1) 1 in
    let job := bump_attempts job0 in
    match h job with
    | Panicked => mkPass (set_stats q s1) Unwind (Some job)
    | Returned Success =>
      mkPass (set_stats q (completed_add (processing_sub s1 1) 1)) Continue (Some job)
    | Returned (Retry reason) =>
      let s2 := processing_sub s1 1 in
      if attempts job <? max_attempts job then
        match rpush push_ok q (to_string job) with
        | None =>
          let q1 := log q (LogError "Failed to re-enqueue job for retry"%string) in
          mkPass (set_stats q1 (failed_add s2 1)) Continue (Some job)
        | Some q1 =>
          let q2 := log q1 (LogWarn "Job queued for retry"%string) in
          mkPass (set_stats q2 (pending_add s2 1)) Continue (Some job)
        end
      else
        let q1 := log q (LogError "Job failed after max retries"%string) in
        mkPass (set_stats q1 (failed_add s2 1)) Continue (Some job)
    | Returned (Failed reason) =>
      let q1 := log q (LogError "Job failed"%string) in
      mkPass (set_stats q1 (failed_add (processing_sub s1 1) 1)) Continue (Some job)
    end
  end.

(** One pass of a worker's loop (lines 155-237): the [running] check,
    [BLPOP] with its timeout ([pop_ok] is whether the command succeeds; a
    failed one, not applied by the server, is logged and followed by a one
    second sleep), then [process]. *)
Definition worker_pass (h : Handler) (pop_ok push_ok : bool) (q : Queue) : Pass Queue :=
  if negb (running q) then mkPass q Break None
  else if negb pop_ok then
    mkPass (log q (LogError "Redis BLPOP error"%string)) Continue None
  else
    match pending_list q with
    | [] => mkPass q Continue None
    | job_json :: rest => process h push_ok (set_list q rest) job_json
    end.

(** A pass whose [BLPOP] reply is lost after the server popped the head
    of the list: the value is gone from Redis while the worker takes the
    [Err] arm (lines 167-171). *)
Definition worker_pass_pop_lost (q : Queue) : Pass Queue :=
  if negb (running q) then mkPass q Break None
  else mkPass (log (set_list q (tl (pending_list q))) (LogError "Redis BLPOP error"%string))
              Continue None.

(** A single worker run for [fuel] passes against a healthy connection
    (every [BLPOP] answers); [push_ok n] is whether the retry [rpush] of
    pass [n] succeeds.  Returns the final state and the handler's jobs. *)
Fixpoint run (h : Handler) (push_ok : nat -> bool) (fuel : nat) (q : Queue) : Queue * list Job :=
  match fuel with
  | O => (q, [])
  | S n =>
    let p := worker_pass h true (push_ok n) q in
    let calls := calls_of (invoked p) in
    match flow p with
    | Continue =>
      match pending_list q with
      | [] => (q, [])
      | _ => let '(q', cs) := run h push_ok n (next p) in (q', calls ++ cs)
      end
    | _ => (next p, calls)
    end
  end.

End RedisQueue.

Arguments mkQueue {Json}.
Arguments stats {Json}.
Arguments pending_list {Json}.
Arguments running {Json}.
Arguments logs {Json}.
Arguments set_stats {Json}.
Arguments set_list {Json}.
Arguments log {Json}.
Arguments rpush {Json}.
Arguments enqueue {Json}.
Arguments enqueue_reply_lost {Json}.
Arguments external_push {Json}.
Arguments process {Json}.
Arguments worker_pass {Json}.
Arguments worker_pass_pop_lost {Json}.
Arguments run {Json}.

End Redis.

(* ------------------------------------------------------------------ *)
(** ** Jobs held by a queue *)

(** A job that can still be attempted: [attempts < max_attempts], both
    [u32]. *)
Definition job_ok (j : Job) : Prop :=
  0 <= attempts j < max_attempts j /\ max_attempts j < U32_MODULUS.

(** Handler invocations a job has left before [attempts] reaches
    [max_attempts]. *)
Definition budget (j : Job) : nat := Z.to_nat (max_attempts j - attempts j).

Fixpoint total_budget (l : list Job) : nat :=
  match l with
  | [] => 0%nat
  | j :: l' => (budget j + total_budget l')%nat
  end.

(** The jobs held by an in-memory queue: those in the channel and those
    waiting in a retry task. *)
Definition mem_pool (q : Memory.Queue) : list Job :=
  Memory.chan q ++ map snd (Memory.timers q).

(** The jobs held by the Redis list: the entries that deserialize. *)
Fixpoint decoded {Json : Type} (from_str : Json -> option Job) (l : list Json) : list Job :=
  match l with
  | [] => []
  | v :: l' =>
    match from_str v with
    | Some j => j :: decoded from_str l'
    | None => decoded from_str l'
    end
  end.

(** A job whose serialized text, and that of each of its copies with
    [attempts] incremented, deserializes back into the same job. *)
Definition reads_back {Json : Type} (to_string : Job -> Json) (from_str : Json -> option Job)
    (j : Job) : Prop :=
  forall n, from_str (to_string (Nat.iter n bump_attempts j)) = Some (Nat.iter n bump_attempts j).

(** A job held by a Redis list that can still be attempted and reads
    back. *)
Definition held_ok {Json : Type} (to_string : Job -> Json) (from_str : Json -> option Job)
    (j : Job) : Prop :=
  job_ok j /\ reads_back to_string from_str j.

(* ------------------------------------------------------------------ *)
(** ** Concrete inputs *)

(** A job as [Job::new("email", ...)] creates it at time 0. *)
Definition email_job : Job := Job_new 0 "job-1"%string "email"%string "{}"%string.

(** An empty in-memory queue with live channel halves. *)
Definition mem_empty : Memory.Queue :=
  Memory.mkQueue (mkStats 0 0 0 0) [] true true [] [].

(** A concrete stand-in for the JSON text held by the Redis list: a value
    either decodes to a job or is malformed ([None]). *)
Definition toy_to_string (j : Job) : option Job := Some j.
Definition toy_from_str (v : option Job) : option Job := v.

Definition redis_empty : Redis.Queue (option Job) :=
  Redis.mkQueue (mkStats 0 0 0 0) [] true [].

(** A stand-in with a recursion limit like [serde_json]'s: the text of a
    job is kept as the job itself, and reading it back fails when its
    payload nests brackets more than 128 levels deep. *)
Fixpoint nesting (depth deepest : nat) (s : string) : nat :=
  match s with
  | EmptyString => deepest
  | String c rest =>
    if Ascii.eqb c "["%char || Ascii.eqb c "{"%char then
      nesting (S depth) (Nat.max deepest (S depth)) rest
    else if Ascii.eqb c "]"%char || Ascii.eqb c "}"%char then
      nesting (Nat.pred depth) deepest rest
    else nesting depth deepest rest
  end.

Definition limited_to_string (j : Job) : Job := j.
Definition limited_from_str (v : Job) : option Job :=
  if Nat.leb (nesting 0 0 (payload v)) 128 then Some v else None.

(** [n] nested JSON arrays. *)
Fixpoint brackets (n : nat) : string :=
  match n with
  | O => EmptyString
  | S k => String "["%char (String.append (brackets k) "]")
  end.

(** [Job::new("email", payload)] with a payload nested 129 levels deep. *)
Definition deep_job : Job := Job_new 0 "job-4"%string "email"%string (brackets 129).

Definition redis_limited_empty : Redis.Queue Job :=
  Redis.mkQueue (mkStats 0 0 0 0) [] true [].

Definition always (r : JobResult) : Handler := fun _ => Returned r.

(** The spec's dispatch rule for [scheduled_at] (section 3): a job may be
    dispatched at [now] when it has no [scheduled_at] or it has passed. *)
Definition spec_eligible (now : Z) (j : Job) : bool :=
  match scheduled_at j with
  | None => true
  | Some s => s <=? now
  end.

Definition retry_warning : Log := LogWarn "Job failed, will retry"%string.
Definition exhausted_error : Log := LogError "Job failed after max retries"%string.

Definition requeue_warning : Log := LogWarn "Job queued for retry"%string.

(** The in-memory scenario: a job retried after its first attempt while
    the receiver has been dropped. *)
Definition mem_closed_after_retry : Memory.Queue :=
  Memory.mkQueue (mkStats 1 0 0 0) [] false true
    [(100, bump_attempts email_job)] [LogWarn "Job failed, will retry"%string].

(** The handler [main.rs] installs (lines 82-101): [email] and [cleanup]
    jobs succeed, any other job type fails permanently. *)
Definition app_handler : Handler := fun job =>
  if String.eqb (job_type job) "email" then Returned Success
  else if String.eqb (job_type job) "cleanup" then Returned Success
  else Returned (Failed (String.append "Unknown job type: " (job_type job))).

(** tokio's [Semaphore::MAX_PERMITS], [usize::MAX >> 3]: the largest bound
    of a tokio [mpsc] channel. *)
Definition MAX_PERMITS : Z := Z.shiftr (USIZE_MODULUS - 1) 3.

(** [InMemoryJobQueue::new]: [mpsc::channel(max_size.max(100))] panics
    ([None]) when that bound exceeds [MAX_PERMITS]; otherwise zeroed
    counters and an empty channel with both halves alive. *)
Definition InMemoryJobQueue_new (cfg : Memory.Config) : option Memory.Queue :=
  if MAX_PERMITS <? Memory.capacity cfg then None
  else Some (Memory.mkQueue (mkStats 0 0 0 0) [] true true [] []).

(** Counters of an in-memory queue that match what it holds: [pending]
    counts the jobs in the channel and in retry tasks, nothing is inside a
    handler, and the receiver is alive. *)
Definition mem_counters_exact (q : Memory.Queue) : Prop :=
  Memory.rx_open q = true /\
  pending (Memory.stats q) =
    Z.of_nat (List.length (Memory.chan q) + List.length (Memory.timers q)) /\
  processing (Memory.stats q) = 0 /\
  Z.of_nat (List.length (Memory.chan q) + List.length (Memory.timers q)) < USIZE_MODULUS.

(** The same for the Redis backend: [pending] counts the list entries that
    deserialize into jobs, and each of those jobs reads back. *)
Definition redis_counters_exact {Json : Type} (to_string : Job -> Json)
    (from_str : Json -> option Job) (q : Redis.Queue Json) : Prop :=
  pending (Redis.stats q) = Z.of_nat (List.length (decoded from_str (Redis.pending_list q))) /\
  processing (Redis.stats q) = 0 /\
  Z.of_nat (List.length (decoded from_str (Redis.pending_list q))) < USIZE_MODULUS /\
  Forall (reads_back to_string from_str) (decoded from_str (Redis.pending_list q)).

(* ------------------------------------------------------------------ *)
(** ** Configuration from the environment *)

(** [std::env::var]: the variable's value, [None] when it is unset (or not
    unicode). *)
Definition Env := string -> option string.

Definition digit_value (c : Ascii.ascii) : option Z :=
  let n := Z.of_nat (Ascii.nat_of_ascii c) - 48 in
  if (0 <=? n) && (n <=? 9) then Some n else None.

(** The digit loop of [<usize as FromStr>::from_str] ([from_str_radix] with
    radix 10): [checked_mul] and [checked_add] fail on overflow. *)
Fixpoint digits_value (acc : Z) (s : string) : option Z :=
  match s with
  | EmptyString => Some acc
  | String c rest =>
    match digit_value c with
    | None => None
    | Some d =>
      let acc' := acc * 10 + d in
      if acc' <? USIZE_MODULUS then digits_value acc' rest else None
    end
  end.

(** [s.parse::<usize>().ok()] (also [u64], of the same width): an
    optional [+], then at least one decimal digit; an unsigned type takes
    no [-]. *)
Definition parse_usize (s : string) : option Z :=
  match s with
  | EmptyString => None
  | String c rest =>
    if Ascii.eqb c "+"%char then
      match rest with
      | EmptyString => None
      | _ => digits_value 0 rest
      end
    else digits_value 0 s
  end.

(** [std::env::var(name).ok().and_then(|s| s.parse().ok()).unwrap_or(default)] *)
Definition env_usize (env : Env) (name : string) (default : Z) : Z :=
  match env name with
  | Some s => match parse_usize s with Some n => n | None => default end
  | None => default
  end.

(** [InMemoryJobQueueConfig] as [InMemoryJobQueue::from_env] builds it. *)
Definition InMemoryJobQueueConfig_from_env (env : Env) : Memory.Config :=
  Memory.mkConfig (env_usize env "JOB_QUEUE_MAX_SIZE" 10000)
                  (env_usize env "JOB_QUEUE_WORKERS" 4).

(** [RedisJobQueueConfig] without its [redis] connection settings. *)
Record RedisJobQueueConfig := mkRedisConfig {
  queue_name : string;
  redis_workers : Z;      (* usize *)
  pop_timeout : Z         (* u64, seconds *)
}.

Definition RedisJobQueueConfig_default : RedisJobQueueConfig :=
  mkRedisConfig "jobs" 4 5.

(** [RedisJobQueueConfig::from_env] *)
Definition RedisJobQueueConfig_from_env (env : Env) : RedisJobQueueConfig :=
  mkRedisConfig
    (match env "JOB_QUEUE_NAME"%string with Some n => n | None => "jobs"%string end)
    (env_usize env "JOB_QUEUE_WORKERS" 4)
    (env_usize env "JOB_QUEUE_POP_TIMEOUT" 5).

(** [RedisJobQueue::pending_key]: [format!("{}:pending", queue_name)]. *)
Definition pending_key (cfg : RedisJobQueueConfig) : string :=
  String.append (queue_name cfg) ":pending".

(** [RedisJobQueue::new] against a Redis list that already holds [l]:
    zeroed counters ([JobStats::default()]) and [running = false]. *)
Definition RedisJobQueue_new {Json : Type} (l : list Json) : Redis.Queue Json :=
  Redis.mkQueue (mkStats 0 0 0 0) l false [].

(** The first statement of [RedisJobQueue::start_worker]:
    [*self.running.write().await = true]. *)
Definition redis_start_worker {Json : Type} (q : Redis.Queue Json) : Redis.Queue Json :=
  Redis.mkQueue (Redis.stats q) (Redis.pending_list q) true (Redis.logs q).

(** Decimal text of a natural number, most significant digit first; [fuel]
    bounds the number of digits. *)
Definition digit_char (d : Z) : Ascii.ascii := Ascii.ascii_of_nat (Z.to_nat (48 + d)).

Fixpoint decimal_aux (fuel : nat) (n : Z) : string :=
  match fuel with
  | O => EmptyString
  | S f =>
    if n <? 10 then String (digit_char n) EmptyString
    else String.append (decimal_aux f (n / 10)) (String (digit_char (n mod 10)) EmptyString)
  end.

Definition decimal (n : Z) : string := decimal_aux (Z.to_nat (Z.log2 n + 1)) n.

(** Job types the application's handler knows. *)
Definition known_type (j : Job) : bool :=
  String.eqb (job_type j) "email" || String.eqb (job_type j) "cleanup".

Definition count_known (l : list Job) : Z :=
  Z.of_nat (List.length (filter known_type l)).
Definition count_unknown (l : list Job) : Z :=
  Z.of_nat (List.length (filter (fun j => negb (known_type j)) l)).

(** Whether a handler outcome ends a job's life: a result other than
    [Retry], and no panic; counts of the jobs of a list whose handling
    succeeds or fails. *)
Definition final_outcome (o : HandlerOutcome) : bool :=
  match o with
  | Returned Success | Returned (Failed _) => true
  | _ => false
  end.
Definition is_success (o : HandlerOutcome) : bool :=
  match o with Returned Success => true | _ => false end.
Definition count_success (h : Handler) (l : list Job) : Z :=
  Z.of_nat (List.length (filter (fun j => is_success (h (bump_attempts j))) l)).
Definition count_failed (h : Handler) (l : list Job) : Z :=
  Z.of_nat (List.length (filter (fun j => negb (is_success (h (bump_attempts j)))) l)).

(** A caller that enqueues jobs one after another on the in-memory queue,
    collecting the results. *)
Fixpoint enqueue_all (cfg : Memory.Config) (q : Memory.Queue) (l : list Job)
  : Memory.Queue * list (Result unit JobQueueError) :=
  match l with
  | [] => (q, [])
  | j :: l' =>
    let '(q1, r) := Memory.enqueue cfg q j in
    let '(q2, rs) := enqueue_all cfg q1 l' in
    (q2, r :: rs)
  end.

(** More concrete inputs: queues holding one job, jobs of the other
    types, and environments. *)
Definition mem_one : Memory.Queue :=
  Memory.mkQueue (mkStats 1 0 0 0) [email_job] true true [] [].
Definition cleanup_job : Job := Job_new 0 "job-2"%string "cleanup"%string "{}"%string.
Definition report_job : Job := Job_new 0 "job-3"%string "report"%string "{}"%string.
Definition redis_one : Redis.Queue (option Job) :=
  Redis.mkQueue (mkStats 1 0 0 0) [toy_to_string email_job] true [].

(** [JOB_QUEUE_MAX_SIZE=250], [JOB_QUEUE_WORKERS=-3], nothing else set. *)
Definition memory_env : Env := fun name =>
  if String.eqb name "JOB_QUEUE_MAX_SIZE" then Some "250"%string
  else if String.eqb name "JOB_QUEUE_WORKERS" then Some "-3"%string
  else None.

(** [JOB_QUEUE_WORKERS] and [JOB_QUEUE_POP_TIMEOUT] set to [2^64], one
    past [u64::MAX], nothing else set. *)
Definition redis_env : Env := fun name =>
  if String.eqb name "JOB_QUEUE_WORKERS" then Some "+18446744073709551616"%string
  else if String.eqb name "JOB_QUEUE_POP_TIMEOUT" then Some "18446744073709551616"%string
  else None.

Example email_job_defaults : attempts email_job = 0 /\ max_attempts email_job = 3.
Proof. split; reflexivity. Qed.

Example mem_enqueue_then_success :
  match Memory.enqueue Memory.default_config mem_empty email_job with
  | (q1, Ok _) =>
    match Memory.worker_pass (always Success) q1 with
    | Some p => Memory.stats (next p) = mkStats 0 0 1 0
    | None => False
    end
  | _ => False
  end.
Proof. vm_compute. reflexivity. Qed.

(* ------------------------------------------------------------------ *)
(** ** Enqueue on the in-memory backend *)

(** C4: with a configured capacity ([max_size > 0]) and [pending] equal to
    it, [enqueue] returns [QueueFull] and leaves the whole queue (its
    [pending] counter and its buffered jobs) unchanged. *)
Theorem mem_enqueue_full_unchanged (cfg : Memory.Config) (q : Memory.Queue) (j : Job) :
  0 < Memory.max_size cfg ->
  pending (Memory.stats q) = Memory.max_size cfg ->
  Memory.enqueue cfg q j = (q, Err QueueFull).
Proof.
  intros Hpos Hfull. unfold Memory.enqueue.
  rewrite Hfull, Z.leb_refl. apply Z.ltb_lt in Hpos. rewrite Hpos. reflexivity.
Qed.

Lemma mem_enqueue_full_unchanged_witness :
  let q := Memory.set_stats mem_empty (mkStats 2 0 0 0) in
  Memory.enqueue (Memory.mkConfig 2 1) q email_job = (q, Err QueueFull).
Proof.
  apply (mem_enqueue_full_unchanged (Memory.mkConfig 2 1)); simpl; lia.
Defined.

Section RedisProperties.

Context {Json : Type} (to_string : Job -> Json) (from_str : Json -> option Job).

(** C9: a popped value that does not deserialize into a [Job] is counted
    once in [failed], logged, dropped from the list (no retry, the handler
    never sees it), and the worker loop goes on. *)
Theorem redis_malformed_payload_failed_once (h : Handler) (push_ok : bool)
    (q : Redis.Queue Json) (v : Json) (rest : list Json) :
  Redis.running q = true ->
  Redis.pending_list q = v :: rest ->
  from_str v = None ->
  let p := Redis.worker_pass to_string from_str h true push_ok q in
  flow p = Continue /\ invoked p = None /\
  Redis.pending_list (next p) = rest /\
  Redis.stats (next p) = failed_add (Redis.stats q) 1 /\
  Redis.logs (next p) = Redis.logs q ++ [LogError "Failed to deserialize job"%string].
Proof.
  intros Hrun Hlist Hbad. cbv zeta.
  unfold Redis.worker_pass. rewrite Hrun, Hlist. simpl.
  unfold Redis.process. rewrite Hbad. simpl. repeat split; reflexivity.
Qed.

End RedisProperties.

Lemma redis_malformed_payload_failed_once_witness :
  let q := Redis.external_push redis_empty None in
  let p := Redis.worker_pass toy_to_string toy_from_str (always Success) true true q in
  flow p = Continue /\ invoked p = None /\
  Redis.pending_list (next p) = [] /\
  Redis.stats (next p) = failed_add (Redis.stats q) 1 /\
  Redis.logs (next p) = Redis.logs q ++ [LogError "Failed to deserialize job"%string].
Proof.
  apply (redis_malformed_payload_failed_once toy_to_string toy_from_str
           (always Success) true (Redis.external_push redis_empty None) None []);
    reflexivity.
Defined.

(* ------------------------------------------------------------------ *)
(** ** Arithmetic of the counters *)

Lemma u32_incr_small (a : Z) : 0 <= a -> a + 1 < U32_MODULUS -> u32_incr a = a + 1.
Proof. intros. unfold u32_incr. apply Z.mod_small. lia. Qed.

Lemma usize_add_sub_cancel (x d : Z) : is_usize x -> usize_sub (usize_add x d) d = x.
Proof.
  unfold is_usize, usize_add, usize_sub. intros Hx.
  rewrite Zminus_mod_idemp_l. replace (x + d - d) with x by lia.
  apply Z.mod_small. exact Hx.
Qed.

Lemma usize_sub_add_cancel (x d : Z) : is_usize x -> usize_add (usize_sub x d) d = x.
Proof.
  unfold is_usize, usize_add, usize_sub. intros Hx.
  rewrite Zplus_mod_idemp_l. replace (x - d + d) with x by lia.
  apply Z.mod_small. exact Hx.
Qed.

(* ------------------------------------------------------------------ *)
(** ** Handler panics *)

(** C3 (as stated, refuted): a panicking handler on the in-memory backend
    does not make the worker go on with the job counted as failed; the
    panic unwinds out of the worker's task and [failed] stays 0. *)
Lemma handler_panic_not_caught_cex :
  match Memory.worker_pass (fun _ => Panicked) (Memory.set_chan mem_empty [email_job]) with
  | Some p => flow p <> Continue /\ flow p = Unwind /\
              failed (Memory.stats (next p)) <> usize_add 0 1 /\
              processing (Memory.stats (next p)) = 1
  | None => False
  end.
Proof. vm_compute. repeat split; discriminate. Qed.

(** C3 (amended): on both backends a handler panic is not caught: the pass
    ends by unwinding out of the worker's task, [failed] is not
    incremented and [processing] keeps the increment of the dequeue. *)
Theorem handler_panic_unwinds_worker :
  (forall (h : Handler) (q : Memory.Queue) (j : Job) (rest : list Job),
      Memory.chan q = j :: rest -> h (bump_attempts j) = Panicked ->
      Memory.worker_pass h q =
      Some (mkPass (Memory.set_stats (Memory.set_chan q rest)
                      (processing_add (pending_sub (Memory.stats q) 1) 1))
                   Unwind (Some (bump_attempts j)))) /\
  (forall (Json : Type) (to_string : Job -> Json) (from_str : Json -> option Job)
          (h : Handler) (push_ok : bool) (q : Redis.Queue Json) (v : Json)
          (rest : list Json) (j : Job),
      Redis.running q = true -> Redis.pending_list q = v :: rest ->
      from_str v = Some j -> h (bump_attempts j) = Panicked ->
      Redis.worker_pass to_string from_str h true push_ok q =
      mkPass (Redis.set_stats (Redis.set_list q rest)
                (processing_add (pending_sub (Redis.stats q) 1) 1))
             Unwind (Some (bump_attempts j))).
Proof.
  split.
  - intros h q j rest Hc Hp. unfold Memory.worker_pass. rewrite Hc.
    unfold Memory.process. rewrite Hp. reflexivity.
  - intros Json to_string from_str h push_ok q v rest j Hr Hl Hd Hp.
    unfold Redis.worker_pass. rewrite Hr, Hl. simpl.
    unfold Redis.process. rewrite Hd, Hp. reflexivity.
Qed.

Lemma handler_panic_unwinds_worker_witness :
  let q := Memory.set_chan mem_empty [email_job] in
  Memory.worker_pass (fun _ => Panicked) q =
  Some (mkPass (Memory.set_stats (Memory.set_chan q [])
                  (processing_add (pending_sub (Memory.stats q) 1) 1))
               Unwind (Some (bump_attempts email_job))).
Proof.
  intros q. apply (proj1 handler_panic_unwinds_worker); reflexivity.
Defined.

(* ------------------------------------------------------------------ *)
(** ** Delayed jobs *)

(** C5 (code defect): a job made with [Job::delayed] at [now] with a
    positive delay is not yet eligible by the spec's rule, yet a worker of
    either backend that receives it hands it to the handler at once:
    neither loop reads [scheduled_at]. *)
Theorem delayed_job_dispatched_early (now delay : Z) (j : Job) :
  0 < delay ->
  spec_eligible now (delayed j now delay) = false /\
  (forall (h : Handler) (q : Memory.Queue) (rest : list Job),
      Memory.chan q = delayed j now delay :: rest ->
      exists p, Memory.worker_pass h q = Some p /\
                invoked p = Some (bump_attempts (delayed j now delay))) /\
  (forall (Json : Type) (to_string : Job -> Json) (from_str : Json -> option Job)
          (h : Handler) (push_ok : bool) (q : Redis.Queue Json) (v : Json)
          (rest : list Json),
      Redis.running q = true -> Redis.pending_list q = v :: rest ->
      from_str v = Some (delayed j now delay) ->
      invoked (Redis.worker_pass to_string from_str h true push_ok q) =
      Some (bump_attempts (delayed j now delay))).
Proof.
  intros Hd. split; [|split].
  - unfold spec_eligible, delayed. simpl. apply Z.leb_gt. lia.
  - intros h q rest Hc. unfold Memory.worker_pass. rewrite Hc.
    eexists. split; [reflexivity|].
    unfold Memory.process.
    destruct (h _) as [[|r|r]|]; simpl; try reflexivity.
    destruct (_ <? _); reflexivity.
  - intros Json to_string from_str h push_ok q v rest Hr Hl Hv.
    unfold Redis.worker_pass. rewrite Hr, Hl. simpl.
    unfold Redis.process. rewrite Hv.
    destruct (h _) as [[|r|r]|]; simpl; try reflexivity.
    destruct (_ <? _); [destruct push_ok|]; reflexivity.
Qed.

Lemma delayed_job_dispatched_early_witness :
  spec_eligible 0 (delayed email_job 0 3600000) = false /\
  Memory.worker_pass (always Success)
    (Memory.set_chan mem_empty [delayed email_job 0 3600000]) <> None.
Proof.
  destruct (delayed_job_dispatched_early 0 3600000 email_job) as [He [Hm _]];
    [lia|].
  split; [exact He|].
  destruct (Hm (always Success) (Memory.set_chan mem_empty [delayed email_job 0 3600000]) [])
    as [p [Hp _]]; [reflexivity|].
  rewrite Hp. discriminate.
Defined.

(* ------------------------------------------------------------------ *)
(** ** Retry scheduling *)

Lemma bump_attempts_attempts (j : Job) :
  0 <= attempts j -> attempts j + 1 < U32_MODULUS ->
  attempts (bump_attempts j) = attempts j + 1.
Proof. intros. simpl. apply u32_incr_small; assumption. Qed.

(** C2 (code defect): when the handler asks for a retry and budget is
    left, the in-memory worker spawns a task that sleeps
    [100 * attempts] ms (attempts already incremented) before re-sending,
    while the Redis worker [RPUSH]es the job back within the same pass,
    with no delay at all. *)
Theorem retry_delay_by_backend (j : Job) (reason : string) :
  0 <= attempts j -> attempts j + 1 < max_attempts j -> max_attempts j < U32_MODULUS ->
  (forall (h : Handler) (q : Memory.Queue) (rest : list Job),
      h (bump_attempts j) = Returned (Retry reason) ->
      Memory.chan q = j :: rest ->
      exists p, Memory.worker_pass h q = Some p /\
        Memory.chan (next p) = rest /\
        Memory.timers (next p) =
          Memory.timers q ++ [(100 * (attempts j + 1), bump_attempts j)]) /\
  (forall (Json : Type) (to_string : Job -> Json) (from_str : Json -> option Job)
          (h : Handler) (q : Redis.Queue Json) (v : Json) (rest : list Json),
      h (bump_attempts j) = Returned (Retry reason) ->
      Redis.running q = true -> Redis.pending_list q = v :: rest -> from_str v = Some j ->
      Redis.pending_list (next (Redis.worker_pass to_string from_str h true true q)) =
        rest ++ [to_string (bump_attempts j)]).
Proof.
  intros H0 Hlt Hmax.
  assert (Ha : attempts (bump_attempts j) = attempts j + 1)
    by (apply bump_attempts_attempts; lia).
  assert (Hb : (attempts (bump_attempts j) <? max_attempts (bump_attempts j)) = true)
    by (rewrite Ha; simpl; apply Z.ltb_lt; lia).
  split.
  - intros h q rest Hh Hc. unfold Memory.worker_pass. rewrite Hc.
    eexists. split; [reflexivity|].
    unfold Memory.process. rewrite Hh, Hb. rewrite <- Ha. split; reflexivity.
  - intros Json to_string from_str h q v rest Hh Hr Hl Hv.
    unfold Redis.worker_pass. rewrite Hr, Hl. cbv [negb].
    unfold Redis.process. rewrite Hv, Hh, Hb. reflexivity.
Qed.

Lemma retry_delay_by_backend_witness :
  Redis.pending_list
    (next (Redis.worker_pass toy_to_string toy_from_str (always (Retry "smtp down"%string))
             true true (Redis.external_push redis_empty (Some email_job)))) =
  [Some (bump_attempts email_job)].
Proof.
  destruct (retry_delay_by_backend email_job "smtp down"%string) as [_ Hr];
    [unfold email_job, U32_MODULUS; simpl; lia .. |].
  apply (Hr _ toy_to_string toy_from_str (always (Retry "smtp down"%string))
            (Redis.external_push redis_empty (Some email_job)) (Some email_job) []);
    reflexivity.
Defined.

(* ------------------------------------------------------------------ *)
(** ** Failed re-enqueues *)

(** C7 (code defect): on the in-memory backend a retry task whose
    [send] fails only logs: the job is gone from the queue, [failed] is
    unchanged (and [pending] keeps the increment made when the retry was
    scheduled); the Redis worker counts the same failure in [failed]. *)
Theorem reenqueue_failure_by_backend :
  (forall (q : Memory.Queue) (d : Z) (j : Job) (rest : list (Z * Job)),
      Memory.timers q = (d, j) :: rest -> Memory.rx_open q = false ->
      exists q', Memory.fire_retry q = Some q' /\
        Memory.stats q' = Memory.stats q /\
        Memory.chan q' = Memory.chan q /\
        Memory.timers q' = rest /\
        Memory.logs q' =
          Memory.logs q ++ [LogError "Failed to re-enqueue job for retry"%string]) /\
  (forall (Json : Type) (to_string : Job -> Json) (from_str : Json -> option Job)
          (h : Handler) (reason : string) (q : Redis.Queue Json) (v : Json)
          (rest : list Json) (j : Job),
      h (bump_attempts j) = Returned (Retry reason) ->
      Redis.running q = true -> Redis.pending_list q = v :: rest -> from_str v = Some j ->
      attempts (bump_attempts j) < max_attempts j ->
      let p := Redis.worker_pass to_string from_str h true false q in
      failed (Redis.stats (next p)) = usize_add (failed (Redis.stats q)) 1 /\
      Redis.logs (next p) =
        Redis.logs q ++ [LogError "Failed to re-enqueue job for retry"%string]).
Proof.
  split.
  - intros q d j rest Ht Hrx. unfold Memory.fire_retry. rewrite Ht.
    unfold Memory.send. simpl. rewrite Hrx.
    eexists. repeat split; reflexivity.
  - intros Json to_string from_str h reason q v rest j Hh Hr Hl Hv Hlt. cbv zeta.
    unfold Redis.worker_pass. rewrite Hr, Hl. cbv [negb].
    unfold Redis.process. rewrite Hv, Hh.
    replace (attempts (bump_attempts j) <? max_attempts (bump_attempts j)) with true
      by (symmetry; apply Z.ltb_lt; exact Hlt).
    split; reflexivity.
Qed.

Lemma reenqueue_failure_by_backend_witness :
  exists q', Memory.fire_retry mem_closed_after_retry = Some q' /\
    Memory.stats q' = mkStats 1 0 0 0 /\ Memory.chan q' = [] /\ Memory.timers q' = [] /\
    Memory.logs q' = Memory.logs mem_closed_after_retry ++
                     [LogError "Failed to re-enqueue job for retry"%string].
Proof.
  apply (proj1 reenqueue_failure_by_backend mem_closed_after_retry 100
           (bump_attempts email_job) []); reflexivity.
Defined.

(* ------------------------------------------------------------------ *)
(** ** Frame of a successful job *)

(** C8: a job enqueued on an idle queue and then handled with [Success]
    adds exactly 1 to [completed] and leaves [pending], [processing] and
    [failed] at their values before the enqueue, on both backends
    (enqueue: [pending + 1]; dequeue: [pending - 1], [processing + 1];
    completion: [processing - 1], [completed + 1]). *)
Theorem enqueue_then_success_frame :
  (forall (cfg : Memory.Config) (q q1 : Memory.Queue) (j : Job) (h : Handler),
      stats_wf (Memory.stats q) -> Memory.chan q = [] ->
      Memory.enqueue cfg q j = (q1, Ok tt) ->
      h (bump_attempts j) = Returned Success ->
      exists p, Memory.worker_pass h q1 = Some p /\ flow p = Continue /\
        Memory.stats (next p) =
          completed_add (Memory.stats q) 1) /\
  (forall (Json : Type) (to_string : Job -> Json) (from_str : Json -> option Job)
          (q q1 : Redis.Queue Json) (j : Job) (h : Handler) (push_ok : bool),
      stats_wf (Redis.stats q) -> Redis.pending_list q = [] -> Redis.running q = true ->
      from_str (to_string j) = Some j ->
      Redis.enqueue to_string true q j = (q1, Ok tt) ->
      h (bump_attempts j) = Returned Success ->
      let p := Redis.worker_pass to_string from_str h true push_ok q1 in
      flow p = Continue /\
      Redis.stats (next p) = completed_add (Redis.stats q) 1).
Proof.
  split.
  - intros cfg q q1 j h [Hp [Hpr _]] Hc He Hh. unfold Memory.enqueue in He.
    destruct (_ && _); [discriminate|].
    unfold Memory.send in He. simpl in He.
    destruct (Memory.rx_open q) eqn:Hrx; [|discriminate].
    injection He as <-. unfold Memory.worker_pass. simpl. rewrite Hc. simpl.
    eexists. split; [reflexivity|].
    unfold Memory.process. simpl. rewrite Hh. split; [reflexivity|].
    unfold completed_add, processing_sub, processing_add, pending_sub, pending_add. simpl.
    rewrite usize_add_sub_cancel, usize_add_sub_cancel by assumption. reflexivity.
  - intros Json to_string from_str q q1 j h push_ok [Hp [Hpr _]] Hl Hr Hrt He Hh. cbv zeta.
    unfold Redis.enqueue, Redis.rpush in He. injection He as <-.
    unfold Redis.worker_pass. simpl. rewrite Hr, Hl. simpl.
    unfold Redis.process. rewrite Hrt. simpl. rewrite Hh. split; [reflexivity|].
    unfold completed_add, processing_sub, processing_add, pending_sub, pending_add. simpl.
    rewrite usize_add_sub_cancel, usize_add_sub_cancel by assumption. reflexivity.
Qed.

Lemma enqueue_then_success_frame_witness :
  exists p, Memory.worker_pass (always Success)
              (fst (Memory.enqueue Memory.default_config mem_empty email_job)) = Some p /\
    flow p = Continue /\ Memory.stats (next p) = completed_add (Memory.stats mem_empty) 1.
Proof.
  apply (proj1 enqueue_then_success_frame Memory.default_config mem_empty
           (fst (Memory.enqueue Memory.default_config mem_empty email_job)) email_job).
  - unfold stats_wf, is_usize, USIZE_MODULUS. simpl. lia.
  - reflexivity.
  - vm_compute. reflexivity.
  - reflexivity.
Defined.

(* ------------------------------------------------------------------ *)
(** ** Attempts stay within [max_attempts] *)

Lemma total_budget_app (l1 l2 : list Job) :
  total_budget (l1 ++ l2) = (total_budget l1 + total_budget l2)%nat.
Proof. induction l1 as [|j l1 IH]; simpl; [reflexivity|]. rewrite IH. lia. Qed.

Lemma decoded_app {Json : Type} (from_str : Json -> option Job) (l1 l2 : list Json) :
  decoded from_str (l1 ++ l2) = decoded from_str l1 ++ decoded from_str l2.
Proof.
  induction l1 as [|v l1 IH]; simpl; [reflexivity|].
  destruct (from_str v); rewrite IH; reflexivity.
Qed.

(** The attempt that runs a job that could still be attempted: its
    counter grows by one, stays within [max_attempts], and what is left
    is one invocation less. *)
Lemma bump_job_ok (j : Job) :
  job_ok j ->
  attempts (bump_attempts j) = attempts j + 1 /\
  max_attempts (bump_attempts j) = max_attempts j /\
  attempts (bump_attempts j) <= max_attempts (bump_attempts j) /\
  ((attempts (bump_attempts j) <? max_attempts (bump_attempts j)) = true ->
   job_ok (bump_attempts j) /\ S (budget (bump_attempts j)) = budget j) /\
  (1 <= budget j)%nat.
Proof.
  unfold job_ok, budget. intros [[H0 H1] H2].
  assert (Ha : attempts (bump_attempts j) = attempts j + 1)
    by (apply bump_attempts_attempts; lia).
  assert (Hm : max_attempts (bump_attempts j) = max_attempts j) by reflexivity.
  rewrite Ha, Hm. repeat split; try lia.
  all: intros Hlt; apply Z.ltb_lt in Hlt; lia.
Qed.

Ltac job_ok_facts j :=
  let Ha := fresh "Ha" in let Hm := fresh "Hm" in let Hle := fresh "Hle" in
  let Hre := fresh "Hre" in let Hb := fresh "Hb" in
  match goal with
  | H : job_ok j |- _ => destruct (bump_job_ok j H) as (Ha & Hm & Hle & Hre & Hb)
  end.

Ltac mem_simpl :=
  cbn [next flow invoked Memory.chan Memory.timers Memory.stats Memory.logs
       Memory.rx_open Memory.tx_open
       Memory.set_stats Memory.set_timers Memory.set_chan Memory.log
       calls_of List.length total_budget app map snd] in *.

(** One pass of the in-memory worker keeps every held job attemptable,
    runs the handler on a job within [max_attempts], and uses up one
    invocation of what is left. *)
Lemma mem_pass_budget (h : Handler) (q : Memory.Queue) (p : Pass Memory.Queue) :
  Forall job_ok (mem_pool q) -> Memory.worker_pass h q = Some p ->
  Forall job_ok (mem_pool (next p)) /\
  (forall j, invoked p = Some j -> attempts j <= max_attempts j) /\
  (List.length (calls_of (invoked p)) + total_budget (mem_pool (next p)) <=
   total_budget (mem_pool q))%nat.
Proof.
  intros Hok Hp. unfold Memory.worker_pass in Hp. unfold mem_pool in *.
  destruct (Memory.chan q) as [|j0 rest] eqn:Hc.
  - destruct (Memory.tx_open q); [discriminate|].
    injection Hp as <-. mem_simpl. rewrite Hc. cbn [app].
    split; [exact Hok|]. split; [discriminate|]. lia.
  - injection Hp as <-. cbn [app] in Hok. inversion Hok as [|? ? Hj0 Hrest]; subst.
    job_ok_facts j0.
    unfold Memory.process.
    destruct (h (bump_attempts j0)) as [[|r|r]|]; mem_simpl.
    4: { split; [exact Hrest|]. split; [intros j Hj; injection Hj as <-; exact Hle|]. lia. }
    3: { split; [exact Hrest|]. split; [intros j Hj; injection Hj as <-; exact Hle|]. lia. }
    1: { split; [exact Hrest|]. split; [intros j Hj; injection Hj as <-; exact Hle|]. lia. }
    destruct (attempts (bump_attempts j0) <? max_attempts (bump_attempts j0)) eqn:E;
      mem_simpl.
    + destruct (Hre eq_refl) as [Hok' Hbud].
      rewrite map_app, app_assoc. cbn [map snd app].
      split; [apply Forall_app; split; [exact Hrest| constructor; [exact Hok'|constructor]]|].
      split; [intros j Hj; injection Hj as <-; exact Hle|].
      rewrite total_budget_app. simpl. lia.
    + split; [exact Hrest|]. split; [intros j Hj; injection Hj as <-; exact Hle|]. lia.
Qed.

(** A retry task firing moves its job into the channel or drops it. *)
Lemma mem_fire_budget (q q' : Memory.Queue) :
  Forall job_ok (mem_pool q) -> Memory.fire_retry q = Some q' ->
  Forall job_ok (mem_pool q') /\
  (total_budget (mem_pool q') <= total_budget (mem_pool q))%nat.
Proof.
  unfold mem_pool. intros Hok Hf. unfold Memory.fire_retry in Hf.
  destruct (Memory.timers q) as [|[d j] rest] eqn:Ht; [discriminate|].
  cbn [map snd] in Hok. apply Forall_app in Hok as [Hc Hjr].
  inversion Hjr as [|? ? Hj Hr]; subst.
  unfold Memory.send in Hf. cbn [Memory.rx_open Memory.set_timers] in Hf.
  destruct (Memory.rx_open q); injection Hf as <-; mem_simpl.
  - rewrite <- app_assoc. cbn [app].
    split; [apply Forall_app; split; [exact Hc | constructor; assumption]|].
    rewrite !total_budget_app. cbn [total_budget]. lia.
  - split; [apply Forall_app; split; assumption|].
    rewrite !total_budget_app. cbn [total_budget]. lia.
Qed.

(** [enqueue] of an attemptable job keeps every held job attemptable. *)
Lemma mem_enqueue_jobs_ok (cfg : Memory.Config) (q q' : Memory.Queue) (j : Job)
    (r : Result unit JobQueueError) :
  job_ok j -> Forall job_ok (mem_pool q) -> Memory.enqueue cfg q j = (q', r) ->
  Forall job_ok (mem_pool q').
Proof.
  unfold mem_pool. intros Hj Hok He. unfold Memory.enqueue in He.
  destruct (_ && _); [injection He as <- _; exact Hok|].
  unfold Memory.send in He. cbn [Memory.rx_open Memory.set_stats] in He.
  destruct (Memory.rx_open q); injection He as <- _; mem_simpl; [|exact Hok].
  apply Forall_app in Hok as [Hc Ht].
  rewrite <- app_assoc. apply Forall_app. split; [exact Hc|].
  constructor; assumption.
Qed.

Lemma reads_back_self {Json : Type} (to_string : Job -> Json) (from_str : Json -> option Job)
    (j : Job) :
  reads_back to_string from_str j -> from_str (to_string j) = Some j.
Proof. intros H. exact (H 0%nat). Qed.

Lemma reads_back_bump {Json : Type} (to_string : Job -> Json) (from_str : Json -> option Job)
    (j : Job) :
  reads_back to_string from_str j -> reads_back to_string from_str (bump_attempts j).
Proof. intros H n. rewrite <- Nat.iter_succ_r. apply H. Qed.

Section RedisBudget.

Context {Json : Type} (to_string : Job -> Json) (from_str : Json -> option Job).

Ltac redis_simpl :=
  cbn [next flow invoked Redis.pending_list Redis.stats Redis.logs Redis.running
       Redis.set_stats Redis.set_list Redis.log Redis.rpush
       calls_of List.length total_budget app decoded] in *.

(** One pass of the Redis worker keeps every job held by the list
    attemptable (and reading back), runs the handler on a job within
    [max_attempts], and uses up one invocation of what is left. *)
Lemma redis_pass_budget (h : Handler) (pop_ok push_ok : bool) (q : Redis.Queue Json) :
  Forall (held_ok to_string from_str) (decoded from_str (Redis.pending_list q)) ->
  let p := Redis.worker_pass to_string from_str h pop_ok push_ok q in
  Forall (held_ok to_string from_str) (decoded from_str (Redis.pending_list (next p))) /\
  (forall j, invoked p = Some j -> attempts j <= max_attempts j) /\
  (List.length (calls_of (invoked p)) +
   total_budget (decoded from_str (Redis.pending_list (next p))) <=
   total_budget (decoded from_str (Redis.pending_list q)))%nat.
Proof.
  intros Hok. cbv zeta. unfold Redis.worker_pass.
  destruct (Redis.running q); cbn [negb];
    [| redis_simpl; split; [exact Hok|]; split; [discriminate|]; lia].
  destruct pop_ok; cbn [negb];
    [| redis_simpl; split; [exact Hok|]; split; [discriminate|]; lia].
  revert Hok. destruct (Redis.pending_list q) as [|v rest] eqn:Hl; intros Hok;
    [redis_simpl; rewrite Hl; redis_simpl; split; [constructor|]; split; [discriminate|]; lia|].
  unfold Redis.process. cbn [decoded] in Hok |- *.
  destruct (from_str v) as [j0|] eqn:Hv;
    [| redis_simpl; split; [exact Hok|]; split; [discriminate|]; lia].
  inversion Hok as [|? ? [Hj0 Hrt0] Hrest]; subst. job_ok_facts j0.
  destruct (h (bump_attempts j0)) as [[|r|r]|]; redis_simpl.
  4: { split; [exact Hrest|]. split; [intros j Hj; injection Hj as <-; exact Hle|]. lia. }
  3: { split; [exact Hrest|]. split; [intros j Hj; injection Hj as <-; exact Hle|]. lia. }
  1: { split; [exact Hrest|]. split; [intros j Hj; injection Hj as <-; exact Hle|]. lia. }
  destruct (attempts (bump_attempts j0) <? max_attempts (bump_attempts j0)) eqn:E.
  - destruct push_ok; redis_simpl.
    + destruct (Hre eq_refl) as [Hok' Hbud].
      pose proof (reads_back_bump to_string from_str j0 Hrt0) as Hrt1.
      rewrite decoded_app. cbn [decoded]. rewrite (reads_back_self to_string from_str _ Hrt1).
      split; [apply Forall_app; split;
              [exact Hrest | constructor; [split; assumption | constructor]]|].
      split; [intros j Hj; injection Hj as <-; exact Hle|].
      rewrite total_budget_app. cbn [total_budget]. lia.
    + split; [exact Hrest|]. split; [intros j Hj; injection Hj as <-; exact Hle|]. lia.
  - redis_simpl.
    split; [exact Hrest|]. split; [intros j Hj; injection Hj as <-; exact Hle|]. lia.
Qed.

End RedisBudget.

(** C6 (as stated, refuted): a job built with [with_max_attempts(0)] is
    still handed to the handler once, with [attempts = 1 > 0]. *)
Lemma attempts_exceed_max_cex :
  match Memory.worker_pass (always (Retry "smtp down"%string))
          (Memory.set_chan mem_empty [with_max_attempts email_job 0]) with
  | Some p => match invoked p with
              | Some j => max_attempts j < attempts j
              | None => False
              end
  | None => False
  end.
Proof. vm_compute. reflexivity. Qed.

(** C6 (amended): for jobs that enter a queue attemptable
    ([attempts < max_attempts], as [Job::new] with [max_attempts >= 1]
    makes them; on Redis, jobs that also read back), every operation of
    both backends keeps every held job so, and every handler invocation
    sees [attempts <= max_attempts].  A job that enters with
    [max_attempts <= attempts < u32::MAX] is still handed to the handler,
    with [attempts > max_attempts], and is not put back whatever the
    handler returns; with [attempts = u32::MAX] the increment wraps the
    value the handler sees to 0 (release build). *)
Theorem attempts_within_max :
  (forall (h : Handler) (q : Memory.Queue) (p : Pass Memory.Queue),
      Forall job_ok (mem_pool q) -> Memory.worker_pass h q = Some p ->
      Forall job_ok (mem_pool (next p)) /\
      (forall j, invoked p = Some j -> attempts j <= max_attempts j)) /\
  (forall (q q' : Memory.Queue),
      Forall job_ok (mem_pool q) -> Memory.fire_retry q = Some q' ->
      Forall job_ok (mem_pool q')) /\
  (forall (cfg : Memory.Config) (q q' : Memory.Queue) (j : Job) (r : Result unit JobQueueError),
      job_ok j -> Forall job_ok (mem_pool q) -> Memory.enqueue cfg q j = (q', r) ->
      Forall job_ok (mem_pool q')) /\
  (forall (Json : Type) (to_string : Job -> Json) (from_str : Json -> option Job),
      (forall (h : Handler) (pop_ok push_ok : bool) (q : Redis.Queue Json),
          Forall (held_ok to_string from_str) (decoded from_str (Redis.pending_list q)) ->
          let p := Redis.worker_pass to_string from_str h pop_ok push_ok q in
          Forall (held_ok to_string from_str) (decoded from_str (Redis.pending_list (next p))) /\
          (forall j, invoked p = Some j -> attempts j <= max_attempts j)) /\
      (forall (conn_ok : bool) (q : Redis.Queue Json) (j : Job),
          job_ok j -> reads_back to_string from_str j ->
          Forall (held_ok to_string from_str) (decoded from_str (Redis.pending_list q)) ->
          Forall (held_ok to_string from_str)
                 (decoded from_str (Redis.pending_list (fst (Redis.enqueue to_string conn_ok q j)))))) /\
  (forall (h : Handler) (q : Memory.Queue) (j : Job) (rest : list Job),
      Memory.chan q = j :: rest -> 0 <= max_attempts j <= attempts j -> attempts j < U32_MODULUS ->
      exists p, Memory.worker_pass h q = Some p /\ invoked p = Some (bump_attempts j) /\
      (attempts j + 1 < U32_MODULUS ->
       max_attempts (bump_attempts j) < attempts (bump_attempts j) /\
       Memory.chan (next p) = rest /\ Memory.timers (next p) = Memory.timers q) /\
      (attempts j + 1 = U32_MODULUS -> attempts (bump_attempts j) = 0)) /\
  (forall (Json : Type) (to_string : Job -> Json) (from_str : Json -> option Job)
          (h : Handler) (push_ok : bool) (q : Redis.Queue Json) (v : Json) (rest : list Json)
          (j : Job),
      Redis.running q = true -> Redis.pending_list q = v :: rest -> from_str v = Some j ->
      0 <= max_attempts j <= attempts j -> attempts j < U32_MODULUS ->
      let p := Redis.worker_pass to_string from_str h true push_ok q in
      invoked p = Some (bump_attempts j) /\
      (attempts j + 1 < U32_MODULUS ->
       max_attempts (bump_attempts j) < attempts (bump_attempts j) /\
       Redis.pending_list (next p) = rest) /\
      (attempts j + 1 = U32_MODULUS -> attempts (bump_attempts j) = 0)).
Proof.
  split; [|split; [|split; [|split; [|split]]]].
  - intros h q p Hok Hp. destruct (mem_pass_budget h q p Hok Hp) as [H1 [H2 _]].
    split; assumption.
  - intros q q' Hok Hf. exact (proj1 (mem_fire_budget q q' Hok Hf)).
  - exact mem_enqueue_jobs_ok.
  - intros Json to_string from_str. split.
    + intros h pop_ok push_ok q Hok.
      destruct (redis_pass_budget to_string from_str h pop_ok push_ok q Hok)
        as [H1 [H2 _]].
      split; assumption.
    + intros conn_ok q j Hj Hrt Hok. unfold Redis.enqueue, Redis.rpush.
      destruct conn_ok; cbn [fst Redis.pending_list Redis.set_stats Redis.set_list];
        [|exact Hok].
      rewrite decoded_app. cbn [decoded]. rewrite (reads_back_self to_string from_str j Hrt).
      apply Forall_app. split; [exact Hok|]. constructor; [split; assumption|constructor].
  - intros h q j rest Hc Hm Hu. eexists. split; [unfold Memory.worker_pass; rewrite Hc; reflexivity|].
    assert (Hw : attempts j + 1 = U32_MODULUS -> attempts (bump_attempts j) = 0).
    { intros He. cbn [attempts bump_attempts]. unfold u32_incr. rewrite He. apply Z_mod_same_full. }
    assert (Hgt : attempts j + 1 < U32_MODULUS ->
                  max_attempts (bump_attempts j) < attempts (bump_attempts j)).
    { intros Hlt. rewrite bump_attempts_attempts by lia. cbn [max_attempts bump_attempts]. lia. }
    unfold Memory.process.
    destruct (h (bump_attempts j)) as [[|r|r]|] eqn:Hh; mem_simpl.
    all: try (split; [reflexivity|];
              split; [intros Hlt; split; [exact (Hgt Hlt)|]; mem_simpl; split; reflexivity
                     |exact Hw]).
    destruct (attempts (bump_attempts j) <? max_attempts (bump_attempts j)) eqn:E; mem_simpl.
    + (* only when the increment wraps *)
      split; [reflexivity|]. split; [|exact Hw].
      intros Hlt. apply Z.ltb_lt in E. specialize (Hgt Hlt). lia.
    + split; [reflexivity|]. split; [intros Hlt; split; [exact (Hgt Hlt)|split; reflexivity]|exact Hw].
  - intros Json to_string from_str h push_ok q v rest j Hr Hl Hv Hm Hu. cbv zeta.
    assert (Hw : attempts j + 1 = U32_MODULUS -> attempts (bump_attempts j) = 0).
    { intros He. cbn [attempts bump_attempts]. unfold u32_incr. rewrite He. apply Z_mod_same_full. }
    unfold Redis.worker_pass. rewrite Hr, Hl. cbn [negb].
    unfold Redis.process. rewrite Hv.
    assert (Hgt : attempts j + 1 < U32_MODULUS ->
                  max_attempts (bump_attempts j) < attempts (bump_attempts j)).
    { intros Hlt. rewrite bump_attempts_attempts by lia. cbn [max_attempts bump_attempts]. lia. }
    destruct (h (bump_attempts j)) as [[|r|r]|] eqn:Hh;
      cbn [next invoked Redis.pending_list Redis.set_stats Redis.set_list Redis.log].
    all: try (split; [reflexivity|]; split; [intros Hlt; split; [exact (Hgt Hlt)|reflexivity]|exact Hw]).
    destruct (attempts (bump_attempts j) <? max_attempts (bump_attempts j)) eqn:E.
    + (* only when the increment wraps *)
      split; [destruct push_ok; reflexivity|].
      split; [|exact Hw]. intros Hlt. apply Z.ltb_lt in E. specialize (Hgt Hlt). lia.
    + cbn [next invoked Redis.pending_list Redis.set_stats Redis.set_list Redis.log].
      split; [reflexivity|]. split; [intros Hlt; split; [exact (Hgt Hlt)|reflexivity]|exact Hw].
Qed.

Lemma attempts_within_max_witness :
  exists p, Memory.worker_pass (always (Retry "smtp down"%string))
              (Memory.set_chan mem_empty [email_job]) = Some p /\
  Forall job_ok (mem_pool (next p)) /\
  (forall j, invoked p = Some j -> attempts j <= max_attempts j).
Proof.
  eexists. split; [reflexivity|].
  apply (proj1 attempts_within_max (always (Retry "smtp down"%string))
           (Memory.set_chan mem_empty [email_job])).
  - constructor; [|constructor]. unfold job_ok, U32_MODULUS. simpl. lia.
  - reflexivity.
Defined.

(* ------------------------------------------------------------------ *)
(** ** Invocations of one job over a whole run *)

(** Over any run of the in-memory worker and its retry tasks, the handler
    is called at most as often as the held jobs have invocations left. *)
Lemma mem_run_budget (h : Handler) (fuel : nat) :
  forall q, Forall job_ok (mem_pool q) ->
  (List.length (snd (Memory.run h fuel q)) <= total_budget (mem_pool q))%nat.
Proof.
  induction fuel as [|fuel IH]; intros q Hok; cbn [Memory.run]; [cbn; lia|].
  destruct (Memory.worker_pass h q) as [p|] eqn:Hp.
  - destruct (mem_pass_budget h q p Hok Hp) as [Hok' [_ Hb]].
    destruct (flow p); cbn [snd]; try lia.
    specialize (IH (next p) Hok').
    destruct (Memory.run h fuel (next p)) as [q' cs]. cbn [snd] in *.
    rewrite length_app. lia.
  - destruct (Memory.fire_retry q) as [q1|] eqn:Hf; [|cbn; lia].
    destruct (mem_fire_budget q q1 Hok Hf) as [Hok1 Hb1].
    specialize (IH q1 Hok1). lia.
Qed.

(** The same bound for a run of the Redis worker. *)
Lemma redis_run_budget {Json : Type} (to_string : Job -> Json) (from_str : Json -> option Job)
    (h : Handler) (push_ok : nat -> bool) (fuel : nat) :
  forall q, Forall (held_ok to_string from_str) (decoded from_str (Redis.pending_list q)) ->
  (List.length (snd (Redis.run to_string from_str h push_ok fuel q)) <=
   total_budget (decoded from_str (Redis.pending_list q)))%nat.
Proof.
  induction fuel as [|fuel IH]; intros q Hok; cbn [Redis.run]; [cbn; lia|].
  destruct (redis_pass_budget to_string from_str h true (push_ok fuel) q Hok)
    as [Hok' [_ Hb]].
  destruct (flow _); cbn [snd]; try lia.
  destruct (Redis.pending_list q) eqn:Hl; [cbn; lia|].
  rewrite <- Hl in *.
  specialize (IH _ Hok').
  destruct (Redis.run to_string from_str h push_ok fuel _) as [q' cs]. cbn [snd] in *.
  rewrite length_app. lia.
Qed.

Lemma mem_pass_head (h : Handler) (q : Memory.Queue) (j : Job) (rest : list Job) :
  Memory.chan q = j :: rest ->
  Memory.worker_pass h q = Some (Memory.process h (Memory.set_chan q rest) j).
Proof. intros Hc. unfold Memory.worker_pass. rewrite Hc. reflexivity. Qed.

Lemma mem_pass_idle (h : Handler) (q : Memory.Queue) :
  Memory.chan q = [] -> Memory.tx_open q = true -> Memory.worker_pass h q = None.
Proof. intros Hc Htx. unfold Memory.worker_pass. rewrite Hc, Htx. reflexivity. Qed.

Lemma mem_run_continue (h : Handler) (fuel : nat) (q : Memory.Queue) (p : Pass Memory.Queue) :
  Memory.worker_pass h q = Some p -> flow p = Continue ->
  Memory.run h (S fuel) q =
  (fst (Memory.run h fuel (next p)), calls_of (invoked p) ++ snd (Memory.run h fuel (next p))).
Proof.
  intros Hp Hf. cbn [Memory.run]. rewrite Hp, Hf.
  destruct (Memory.run h fuel (next p)); reflexivity.
Qed.

Lemma mem_run_fire (h : Handler) (fuel : nat) (q q1 : Memory.Queue) :
  Memory.worker_pass h q = None -> Memory.fire_retry q = Some q1 ->
  Memory.run h (S fuel) q = Memory.run h fuel q1.
Proof. intros Hp Hf. cbn [Memory.run]. rewrite Hp, Hf. reflexivity. Qed.

Lemma mem_run_idle (h : Handler) (fuel : nat) (q : Memory.Queue) :
  Memory.worker_pass h q = None -> Memory.fire_retry q = None ->
  Memory.run h fuel q = (q, []).
Proof. intros Hp Hf. destruct fuel; cbn [Memory.run]; [|rewrite Hp, Hf]; reflexivity. Qed.

Lemma mem_process_retry (h : Handler) (q : Memory.Queue) (j : Job) (reason : string) :
  h (bump_attempts j) = Returned (Retry reason) ->
  (attempts (bump_attempts j) <? max_attempts (bump_attempts j)) = true ->
  Memory.process h q j =
  mkPass (Memory.set_stats
            (Memory.set_timers (Memory.log q retry_warning)
               (Memory.timers q ++ [(100 * attempts (bump_attempts j), bump_attempts j)]))
            (pending_add (processing_sub (processing_add (pending_sub (Memory.stats q) 1) 1) 1) 1))
         Continue (Some (bump_attempts j)).
Proof. intros Hh E. unfold Memory.process. rewrite Hh, E. reflexivity. Qed.

Lemma mem_process_exhausted (h : Handler) (q : Memory.Queue) (j : Job) (reason : string) :
  h (bump_attempts j) = Returned (Retry reason) ->
  (attempts (bump_attempts j) <? max_attempts (bump_attempts j)) = false ->
  Memory.process h q j =
  mkPass (Memory.set_stats (Memory.log q exhausted_error)
            (failed_add (processing_sub (processing_add (pending_sub (Memory.stats q) 1) 1) 1) 1))
         Continue (Some (bump_attempts j)).
Proof. intros Hh E. unfold Memory.process. rewrite Hh, E. reflexivity. Qed.

(** A lone job whose handler always asks for a retry, on the in-memory
    backend with live channel halves: with [n] invocations left it is
    handed to the handler exactly [n] times, re-scheduled [n - 1] times,
    then counted once in [failed] and never in [completed]. *)
Lemma mem_run_always_retry (reason : string) (n : nat) :
  forall (fuel : nat) (q : Memory.Queue) (j : Job),
  Memory.chan q = [j] -> Memory.timers q = [] ->
  Memory.rx_open q = true -> Memory.tx_open q = true ->
  job_ok j -> budget j = n -> (2 * n <= fuel)%nat ->
  let res := Memory.run (always (Retry reason)) fuel q in
  List.length (snd res) = n /\
  completed (Memory.stats (fst res)) = completed (Memory.stats q) /\
  failed (Memory.stats (fst res)) = usize_add (failed (Memory.stats q)) 1 /\
  Memory.logs (fst res) =
    Memory.logs q ++ repeat retry_warning (n - 1) ++ [exhausted_error] /\
  Memory.chan (fst res) = [] /\ Memory.timers (fst res) = [].
Proof.
  induction n as [|m IH]; intros fuel q j Hc Ht Hrx Htx Hj Hb Hf; cbv zeta.
  - destruct (bump_job_ok j Hj) as (_ & _ & _ & _ & Hb1). lia.
  - job_ok_facts j.
    destruct fuel as [|fuel]; [lia|].
    assert (Hh : always (Retry reason) (bump_attempts j) = Returned (Retry reason))
      by reflexivity.
    destruct (attempts (bump_attempts j) <? max_attempts (bump_attempts j)) eqn:E.
    + destruct (Hre eq_refl) as [Hok' Hbud].
      destruct (bump_job_ok _ Hok') as (_ & _ & _ & _ & Hb2).
      destruct m as [|m']; [lia|].
      destruct fuel as [|fuel]; [lia|].
      rewrite (mem_run_continue _ _ _ _ (mem_pass_head _ q j [] Hc)
                 ltac:(rewrite (mem_process_retry _ _ _ _ Hh E); reflexivity)).
      rewrite (mem_process_retry _ _ _ _ Hh E). mem_simpl. rewrite Ht. cbn [app].
      set (q1 := Memory.set_stats _ _).
      set (q2 := Memory.set_chan (Memory.set_timers q1 []) [bump_attempts j]).
      assert (Hfire : Memory.fire_retry q1 = Some q2).
      { unfold Memory.fire_retry, Memory.send. subst q1. mem_simpl. rewrite Hrx. reflexivity. }
      rewrite (mem_run_fire _ _ _ _ (mem_pass_idle _ q1 eq_refl Htx) Hfire).
      destruct (IH fuel q2 (bump_attempts j) eq_refl eq_refl Hrx Htx Hok'
                  ltac:(lia) ltac:(lia)) as (Hl & Hco & Hfa & Hlo & Hch & Hti).
      cbn [fst snd List.length app] in *.
      subst q2 q1. mem_simpl.
      repeat split.
      * rewrite Hl. reflexivity.
      * exact Hco.
      * exact Hfa.
      * rewrite Hlo, <- app_assoc. replace (S (S m') - 1)%nat with (S m') by lia.
        cbn [repeat app]. replace (S m' - 1)%nat with m' by lia. reflexivity.
      * exact Hch.
      * exact Hti.
    + destruct m as [|m']; [|apply Z.ltb_ge in E; rewrite Ha, Hm in E; unfold budget in Hb; lia].
      rewrite (mem_run_continue _ _ _ _ (mem_pass_head _ q j [] Hc)
                 ltac:(rewrite (mem_process_exhausted _ _ _ _ Hh E); reflexivity)).
      rewrite (mem_process_exhausted _ _ _ _ Hh E). mem_simpl.
      set (q1 := Memory.set_stats _ _).
      rewrite (mem_run_idle _ _ q1 (mem_pass_idle _ q1 eq_refl Htx)
                 ltac:(unfold Memory.fire_retry; subst q1; mem_simpl; rewrite Ht; reflexivity)).
      subst q1. cbn [fst snd]. mem_simpl. rewrite Ht.
      repeat split; reflexivity.
Qed.

Section RedisRun.

Context {Json : Type} (to_string : Job -> Json) (from_str : Json -> option Job).

Lemma redis_run_continue (h : Handler) (push_ok : nat -> bool) (fuel : nat)
    (q : Redis.Queue Json) (v : Json) (rest : list Json) :
  Redis.pending_list q = v :: rest ->
  let p := Redis.worker_pass to_string from_str h true (push_ok fuel) q in
  flow p = Continue ->
  Redis.run to_string from_str h push_ok (S fuel) q =
  (fst (Redis.run to_string from_str h push_ok fuel (next p)),
   calls_of (invoked p) ++ snd (Redis.run to_string from_str h push_ok fuel (next p))).
Proof.
  intros Hl p Hf. cbn [Redis.run]. fold p. rewrite Hf, Hl.
  destruct (Redis.run to_string from_str h push_ok fuel (next p)); reflexivity.
Qed.

Lemma redis_run_idle (h : Handler) (push_ok : nat -> bool) (fuel : nat) (q : Redis.Queue Json) :
  Redis.pending_list q = [] -> Redis.running q = true ->
  Redis.run to_string from_str h push_ok fuel q = (q, []).
Proof.
  intros Hl Hr. destruct fuel; cbn [Redis.run]; [reflexivity|].
  unfold Redis.worker_pass at 1. rewrite Hr, Hl. reflexivity.
Qed.

Lemma redis_pass_retry (h : Handler) (q : Redis.Queue Json) (j : Job) (reason : string) :
  from_str (to_string j) = Some j ->
  Redis.running q = true -> Redis.pending_list q = [to_string j] ->
  h (bump_attempts j) = Returned (Retry reason) ->
  (attempts (bump_attempts j) <? max_attempts (bump_attempts j)) = true ->
  Redis.worker_pass to_string from_str h true true q =
  mkPass (Redis.set_stats
            (Redis.log (Redis.set_list (Redis.set_list q []) [to_string (bump_attempts j)])
               requeue_warning)
            (pending_add (processing_sub (processing_add (pending_sub (Redis.stats q) 1) 1) 1) 1))
         Continue (Some (bump_attempts j)).
Proof.
  intros Hrt Hr Hl Hh E. unfold Redis.worker_pass. rewrite Hr, Hl. cbv [negb].
  unfold Redis.process. rewrite Hrt, Hh, E. reflexivity.
Qed.

Lemma redis_pass_exhausted (h : Handler) (q : Redis.Queue Json) (j : Job) (reason : string) :
  from_str (to_string j) = Some j ->
  Redis.running q = true -> Redis.pending_list q = [to_string j] ->
  h (bump_attempts j) = Returned (Retry reason) ->
  (attempts (bump_attempts j) <? max_attempts (bump_attempts j)) = false ->
  Redis.worker_pass to_string from_str h true true q =
  mkPass (Redis.set_stats (Redis.log (Redis.set_list q []) exhausted_error)
            (failed_add (processing_sub (processing_add (pending_sub (Redis.stats q) 1) 1) 1) 1))
         Continue (Some (bump_attempts j)).
Proof.
  intros Hrt Hr Hl Hh E. unfold Redis.worker_pass. rewrite Hr, Hl. cbv [negb].
  unfold Redis.process. rewrite Hrt, Hh, E. reflexivity.
Qed.

(** The Redis counterpart of [mem_run_always_retry], with every [RPUSH]
    answered. *)
Lemma redis_run_always_retry (reason : string) (n : nat) :
  forall (fuel : nat) (q : Redis.Queue Json) (j : Job),
  Redis.pending_list q = [to_string j] -> Redis.running q = true ->
  job_ok j -> reads_back to_string from_str j -> budget j = n -> (n <= fuel)%nat ->
  let res := Redis.run to_string from_str (always (Retry reason)) (fun _ => true) fuel q in
  List.length (snd res) = n /\
  completed (Redis.stats (fst res)) = completed (Redis.stats q) /\
  failed (Redis.stats (fst res)) = usize_add (failed (Redis.stats q)) 1 /\
  Redis.logs (fst res) =
    Redis.logs q ++ repeat requeue_warning (n - 1) ++ [exhausted_error] /\
  Redis.pending_list (fst res) = [].
Proof.
  induction n as [|m IH]; intros fuel q j Hl Hr Hj Hrt Hb Hf; cbv zeta.
  all: pose proof (reads_back_self to_string from_str j Hrt) as Hrt0.
  - destruct (bump_job_ok j Hj) as (_ & _ & _ & _ & Hb1). lia.
  - job_ok_facts j.
    destruct fuel as [|fuel]; [lia|].
    assert (Hh : always (Retry reason) (bump_attempts j) = Returned (Retry reason))
      by reflexivity.
    destruct (attempts (bump_attempts j) <? max_attempts (bump_attempts j)) eqn:E.
    + destruct (Hre eq_refl) as [Hok' Hbud].
      destruct (bump_job_ok _ Hok') as (_ & _ & _ & _ & Hb2).
      destruct m as [|m']; [lia|].
      rewrite (redis_run_continue (always (Retry reason)) (fun _ => true) fuel q _ _ Hl
                 ltac:(cbv beta zeta; rewrite (redis_pass_retry _ _ _ _ Hrt0 Hr Hl Hh E); reflexivity)).
      cbv beta. rewrite (redis_pass_retry _ _ _ _ Hrt0 Hr Hl Hh E).
      cbn [next invoked calls_of].
      set (q1 := Redis.set_stats _ _).
      destruct (IH fuel q1 (bump_attempts j) eq_refl Hr Hok'
                  (reads_back_bump to_string from_str j Hrt) ltac:(lia) ltac:(lia))
        as (Hcl & Hco & Hfa & Hlo & Hli).
      cbn [fst snd List.length app] in *.
      subst q1. cbn [Redis.stats Redis.logs Redis.set_stats Redis.log Redis.set_list] in *.
      repeat split.
      * rewrite Hcl. reflexivity.
      * exact Hco.
      * exact Hfa.
      * rewrite Hlo, <- app_assoc. replace (S (S m') - 1)%nat with (S m') by lia.
        cbn [repeat app]. replace (S m' - 1)%nat with m' by lia. reflexivity.
      * exact Hli.
    + destruct m as [|m'];
        [|apply Z.ltb_ge in E; rewrite Ha, Hm in E; unfold budget in Hb; lia].
      rewrite (redis_run_continue (always (Retry reason)) (fun _ => true) fuel q _ _ Hl
                 ltac:(cbv beta zeta; rewrite (redis_pass_exhausted _ _ _ _ Hrt0 Hr Hl Hh E); reflexivity)).
      cbv beta. rewrite (redis_pass_exhausted _ _ _ _ Hrt0 Hr Hl Hh E).
      cbn [next invoked calls_of].
      rewrite (redis_run_idle (always (Retry reason)) (fun _ => true) fuel
                 (Redis.set_stats (Redis.log (Redis.set_list q []) exhausted_error) _)
                 eq_refl Hr).
      cbn [fst snd Redis.stats Redis.logs Redis.pending_list Redis.set_stats Redis.log
           Redis.set_list].
      repeat split; reflexivity.
Qed.

End RedisRun.

(* ------------------------------------------------------------------ *)
(** ** Bounded retries *)

(** C1 (as stated, refuted): a job built with [with_max_attempts(0)] is
    still handed to the handler once, more than [max_attempts = 0] times:
    the worker increments [attempts] and calls the handler before it
    consults [max_attempts]. *)
Lemma handler_invoked_beyond_max_cex :
  let j := with_max_attempts email_job 0 in
  Z.to_nat (max_attempts j) = 0%nat /\
  List.length (snd (Memory.run (always (Retry "smtp down"%string)) 10
                      (Memory.set_chan mem_empty [j]))) = 1%nat.
Proof. vm_compute. split; reflexivity. Qed.

(** C1 (amended): for a job that enters a queue with [attempts = 0] (as
    [Job::new] makes it) and [max_attempts = k >= 1], on either backend
    (on Redis, for a job whose serialized text and that of its copies with
    [attempts] incremented deserialize back into the same job) the handler
    is called at most [k] times whatever it returns; when it always
    returns [Retry] (and every re-enqueue goes through) it is called
    exactly [k] times, the job is re-enqueued [k - 1] times (one retry
    warning each), then counted once in [failed] and never in
    [completed]. *)
Theorem handler_calls_bounded_by_max_attempts (j : Job) :
  attempts j = 0 -> 1 <= max_attempts j < U32_MODULUS ->
  let k := Z.to_nat (max_attempts j) in
  (forall (h : Handler) (fuel : nat) (q : Memory.Queue),
      Memory.chan q = [j] -> Memory.timers q = [] ->
      (List.length (snd (Memory.run h fuel q)) <= k)%nat) /\
  (forall (reason : string) (fuel : nat) (q : Memory.Queue),
      Memory.chan q = [j] -> Memory.timers q = [] ->
      Memory.rx_open q = true -> Memory.tx_open q = true -> (2 * k <= fuel)%nat ->
      let res := Memory.run (always (Retry reason)) fuel q in
      List.length (snd res) = k /\
      completed (Memory.stats (fst res)) = completed (Memory.stats q) /\
      failed (Memory.stats (fst res)) = usize_add (failed (Memory.stats q)) 1 /\
      Memory.logs (fst res) =
        Memory.logs q ++ repeat retry_warning (k - 1) ++ [exhausted_error]) /\
  (forall (Json : Type) (to_string : Job -> Json) (from_str : Json -> option Job),
      reads_back to_string from_str j ->
      (forall (h : Handler) (push_ok : nat -> bool) (fuel : nat) (q : Redis.Queue Json),
          Redis.pending_list q = [to_string j] ->
          (List.length (snd (Redis.run to_string from_str h push_ok fuel q)) <= k)%nat) /\
      (forall (reason : string) (fuel : nat) (q : Redis.Queue Json),
          Redis.pending_list q = [to_string j] -> Redis.running q = true ->
          (k <= fuel)%nat ->
          let res := Redis.run to_string from_str (always (Retry reason)) (fun _ => true) fuel q in
          List.length (snd res) = k /\
          completed (Redis.stats (fst res)) = completed (Redis.stats q) /\
          failed (Redis.stats (fst res)) = usize_add (failed (Redis.stats q)) 1 /\
          Redis.logs (fst res) =
            Redis.logs q ++ repeat requeue_warning (k - 1) ++ [exhausted_error])).
Proof.
  intros H0 Hmax k.
  assert (Hj : job_ok j) by (unfold job_ok; lia).
  assert (Hk : budget j = k) by (unfold budget, k; rewrite H0; f_equal; lia).
  split; [|split].
  - intros h fuel q Hc Ht.
    assert (Hp : mem_pool q = [j]) by (unfold mem_pool; rewrite Hc, Ht; reflexivity).
    pose proof (mem_run_budget h fuel q) as Hb. rewrite Hp in Hb.
    specialize (Hb (Forall_cons _ Hj (Forall_nil _))). cbn [total_budget] in Hb. lia.
  - intros reason fuel q Hc Ht Hrx Htx Hf.
    destruct (mem_run_always_retry reason k fuel q j Hc Ht Hrx Htx Hj Hk Hf)
      as (Hl & Hco & Hfa & Hlo & _).
    repeat split; assumption.
  - intros Json to_string from_str Hrt. split.
    + intros h push_ok fuel q Hl.
      pose proof (redis_run_budget to_string from_str h push_ok fuel q) as Hb.
      rewrite Hl in Hb. cbn [decoded] in Hb. rewrite (reads_back_self to_string from_str j Hrt) in Hb.
      specialize (Hb (Forall_cons _ (conj Hj Hrt) (Forall_nil _))). cbn [total_budget] in Hb. lia.
    + intros reason fuel q Hl Hr Hf.
      destruct (redis_run_always_retry to_string from_str reason k fuel q j Hl Hr Hj Hrt Hk Hf)
        as (Hcl & Hco & Hfa & Hlo & _).
      repeat split; assumption.
Qed.

Lemma handler_calls_bounded_by_max_attempts_witness :
  let q := Memory.set_chan mem_empty [email_job] in
  let res := Memory.run (always (Retry "smtp down"%string)) 6%nat q in
  List.length (snd res) = 3%nat /\
  completed (Memory.stats (fst res)) = completed (Memory.stats q) /\
  failed (Memory.stats (fst res)) = usize_add (failed (Memory.stats q)) 1 /\
  Memory.logs (fst res) = Memory.logs q ++ repeat retry_warning 2 ++ [exhausted_error].
Proof.
  destruct (handler_calls_bounded_by_max_attempts email_job) as [_ [Hm _]];
    [reflexivity | unfold U32_MODULUS; simpl; lia |].
  apply (Hm "smtp down"%string 6%nat (Memory.set_chan mem_empty [email_job]));
    reflexivity.
Defined.

(* ------------------------------------------------------------------ *)
(** ** [pending] and malformed entries of the Redis list *)

(** C10 (as stated, refuted): a malformed value written to the list by
    another writer was never counted in [pending]; after the worker drops
    it, [pending] equals the number of entries left, with no overcount. *)
Lemma malformed_payload_no_overcount_cex :
  let q := Redis.external_push redis_empty None in
  let p := Redis.worker_pass toy_to_string toy_from_str (always Success) true true q in
  pending (Redis.stats (next p)) = Z.of_nat (List.length (Redis.pending_list (next p))) /\
  pending (Redis.stats (next p)) <> Z.of_nat (List.length (Redis.pending_list (next p))) + 1.
Proof. vm_compute. split; [reflexivity | discriminate]. Qed.

(** C10 (amended): a value that fails to deserialize leaves [pending] and
    [processing] unchanged and removes no job from the list (the entries
    that deserialize are the same before and after).  Whether [pending]
    then overcounts depends on the value's origin: one pushed by another
    writer was never counted, so after it is dropped [pending] is as it
    was; a job that this queue's own [enqueue] serialized and counted, but
    whose text does not deserialize, stays counted: once it is dropped the
    list is back to what it held while [pending] is one more. *)
Theorem malformed_payload_keeps_pending :
  (forall (Json : Type) (to_string : Job -> Json) (from_str : Json -> option Job)
          (h : Handler) (push_ok : bool) (q : Redis.Queue Json) (v : Json) (rest : list Json),
      Redis.running q = true -> Redis.pending_list q = v :: rest -> from_str v = None ->
      let p := Redis.worker_pass to_string from_str h true push_ok q in
      pending (Redis.stats (next p)) = pending (Redis.stats q) /\
      processing (Redis.stats (next p)) = processing (Redis.stats q) /\
      decoded from_str (Redis.pending_list (next p)) = decoded from_str (Redis.pending_list q)) /\
  (forall (Json : Type) (to_string : Job -> Json) (from_str : Json -> option Job)
          (h : Handler) (push_ok : bool) (q : Redis.Queue Json) (v : Json),
      Redis.running q = true -> Redis.pending_list q = [] -> from_str v = None ->
      let p := Redis.worker_pass to_string from_str h true push_ok (Redis.external_push q v) in
      invoked p = None /\ Redis.pending_list (next p) = [] /\
      pending (Redis.stats (next p)) = pending (Redis.stats q)) /\
  (forall (Json : Type) (to_string : Job -> Json) (from_str : Json -> option Job)
          (h : Handler) (push_ok : bool) (q q1 : Redis.Queue Json) (j : Job),
      Redis.running q = true -> Redis.pending_list q = [] -> from_str (to_string j) = None ->
      Redis.enqueue to_string true q j = (q1, Ok tt) ->
      let p := Redis.worker_pass to_string from_str h true push_ok q1 in
      invoked p = None /\ Redis.pending_list (next p) = [] /\
      pending (Redis.stats (next p)) = usize_add (pending (Redis.stats q)) 1 /\
      failed (Redis.stats (next p)) = usize_add (failed (Redis.stats q)) 1).
Proof.
  split; [|split].
  - intros Json to_string from_str h push_ok q v rest Hr Hl Hv. cbv zeta.
    unfold Redis.worker_pass. rewrite Hr, Hl. cbv [negb].
    unfold Redis.process. rewrite Hv.
    cbn [next Redis.stats Redis.pending_list Redis.set_stats Redis.set_list Redis.log
         failed_add pending processing decoded].
    rewrite Hv. repeat split; reflexivity.
  - intros Json to_string from_str h push_ok q v Hr Hl Hv. cbv zeta.
    unfold Redis.worker_pass, Redis.external_push.
    cbn [Redis.running Redis.pending_list Redis.set_list]. rewrite Hr, Hl. cbv [negb app].
    unfold Redis.process. rewrite Hv.
    cbn [next invoked Redis.stats Redis.pending_list Redis.set_stats Redis.set_list Redis.log
         failed_add pending].
    repeat split; reflexivity.
  - intros Json to_string from_str h push_ok q q1 j Hr Hl Hv He. cbv zeta.
    unfold Redis.enqueue, Redis.rpush in He. injection He as <-.
    unfold Redis.worker_pass.
    cbn [Redis.running Redis.pending_list Redis.set_list Redis.set_stats]. rewrite Hr, Hl.
    cbv [negb app]. unfold Redis.process. rewrite Hv.
    cbn [next invoked Redis.stats Redis.pending_list Redis.set_stats Redis.set_list Redis.log
         failed_add pending_add pending failed].
    repeat split; reflexivity.
Qed.

Lemma malformed_payload_keeps_pending_witness :
  (let q := Redis.external_push redis_empty None in
   let p := Redis.worker_pass toy_to_string toy_from_str (always Success) true true q in
   pending (Redis.stats (next p)) = pending (Redis.stats q) /\
   processing (Redis.stats (next p)) = processing (Redis.stats q) /\
   decoded toy_from_str (Redis.pending_list (next p)) =
     decoded toy_from_str (Redis.pending_list q)) /\
  (let q1 := fst (Redis.enqueue limited_to_string true redis_limited_empty deep_job) in
   let p := Redis.worker_pass limited_to_string limited_from_str (always Success) true true q1 in
   invoked p = None /\ Redis.pending_list (next p) = [] /\
   pending (Redis.stats (next p)) = usize_add (pending (Redis.stats redis_limited_empty)) 1 /\
   failed (Redis.stats (next p)) = usize_add (failed (Redis.stats redis_limited_empty)) 1).
Proof.
  split.
  - apply (proj1 malformed_payload_keeps_pending _ toy_to_string toy_from_str
             (always Success) true (Redis.external_push redis_empty None) None []);
      reflexivity.
  - apply (proj2 (proj2 malformed_payload_keeps_pending) _ limited_to_string limited_from_str
             (always Success) true redis_limited_empty
             (fst (Redis.enqueue limited_to_string true redis_limited_empty deep_job)) deep_job);
      [reflexivity | reflexivity | vm_compute; reflexivity | reflexivity].
Defined.

(* ------------------------------------------------------------------ *)
(** ** Further properties of the queue code *)

Ltac redis_cbn :=
  cbn [next flow invoked Redis.pending_list Redis.stats Redis.logs Redis.running
       Redis.set_stats Redis.set_list Redis.log Redis.rpush
       calls_of List.length app decoded] in *.

Ltac stats_simpl :=
  unfold pending_add, pending_sub, processing_add, processing_sub, completed_add,
    failed_add in *;
  cbn [pending processing completed failed] in *.

Ltac usize_lia :=
  unfold usize_add, usize_sub in *;
  change USIZE_MODULUS with 18446744073709551616 in *;
  rewrite ?length_app in *; cbn [List.length] in *;
  repeat match goal with
         | |- context [?x mod ?m] => rewrite (Z.mod_small x m) by lia
         end;
  lia.

(** In-memory [enqueue] below the [max_size] check ([max_size = 0] means
    unlimited, or [pending < max_size]), with a live receiver and room in
    the channel (fewer than [max(max_size, 100)] buffered jobs, so [send]
    does not wait) succeeds: it counts the job in [pending] and appends it
    at the end of the channel, changing nothing else. *)
Theorem mem_enqueue_accepts (cfg : Memory.Config) (q : Memory.Queue) (j : Job) :
  Memory.max_size cfg = 0 \/ pending (Memory.stats q) < Memory.max_size cfg ->
  Memory.rx_open q = true -> Memory.has_room cfg q = true ->
  Memory.enqueue cfg q j =
  (Memory.mkQueue (pending_add (Memory.stats q) 1) (Memory.chan q ++ [j])
                  (Memory.rx_open q) (Memory.tx_open q) (Memory.timers q) (Memory.logs q),
   Ok tt).
Proof.
  intros Hroom Hrx _. unfold Memory.enqueue.
  replace ((0 <? Memory.max_size cfg) && (Memory.max_size cfg <=? pending (Memory.stats q)))
    with false.
  2: { destruct Hroom as [H0|Hlt];
       [rewrite H0; reflexivity | apply Z.leb_gt in Hlt; rewrite Hlt, Bool.andb_false_r; reflexivity]. }
  unfold Memory.send, Memory.set_chan, Memory.set_stats. mem_simpl. rewrite Hrx. reflexivity.
Qed.

(** The in-memory counters match the queue's content: a queue from
    [InMemoryJobQueue::new] has [pending] equal to the jobs in the channel
    plus those in retry tasks and [processing = 0]; [enqueue] and every
    retry task firing when the channel has room, and every worker pass that
    does not panic, keep it so, as long as [pending] does not wrap.  An
    [enqueue] whose caller drops it while [send] waits on a full channel
    breaks it: the job is counted and never sent. *)
Theorem mem_counters_exact_invariant :
  (forall cfg q, InMemoryJobQueue_new cfg = Some q -> mem_counters_exact q) /\
  (forall cfg q j q' r,
      mem_counters_exact q -> Memory.has_room cfg q = true ->
      Z.of_nat (List.length (Memory.chan q) + List.length (Memory.timers q)) + 1 < USIZE_MODULUS ->
      Memory.enqueue cfg q j = (q', r) -> mem_counters_exact q') /\
  (forall h q p,
      mem_counters_exact q -> Memory.worker_pass h q = Some p -> flow p <> Unwind ->
      mem_counters_exact (next p)) /\
  (forall cfg q q', mem_counters_exact q -> Memory.has_room cfg q = true ->
      Memory.fire_retry q = Some q' -> mem_counters_exact q') /\
  (forall cfg q j,
      mem_counters_exact q ->
      Memory.max_size cfg = 0 \/ pending (Memory.stats q) < Memory.max_size cfg ->
      Z.of_nat (List.length (Memory.chan q) + List.length (Memory.timers q)) + 1 < USIZE_MODULUS ->
      ~ mem_counters_exact (Memory.enqueue_cancelled cfg q j)).
Proof.
  split; [|split; [|split; [|split]]].
  - intros cfg q Hn. unfold InMemoryJobQueue_new in Hn.
    destruct (_ <? _); [discriminate|]. injection Hn as <-.
    unfold mem_counters_exact. cbn. unfold USIZE_MODULUS. lia.
  - intros cfg q j q' r (Hrx & Hp & Hpr & Hb) _ Hb1 He.
    unfold Memory.enqueue in He.
    destruct (_ && _); [injection He as <- _; repeat split; assumption|].
    unfold Memory.send in He. mem_simpl. rewrite Hrx in He. injection He as <- _.
    unfold mem_counters_exact. mem_simpl. stats_simpl.
    repeat split; [assumption| | assumption |]; usize_lia.
  - intros h q p (Hrx & Hp & Hpr & Hb) Hpass Hflow.
    unfold Memory.worker_pass in Hpass.
    destruct (Memory.chan q) as [|j rest] eqn:Hc.
    + destruct (Memory.tx_open q); [discriminate|]. injection Hpass as <-.
      unfold mem_counters_exact. mem_simpl. rewrite Hc. repeat split; assumption.
    + injection Hpass as <-.
      unfold Memory.process in *.
      destruct (h (bump_attempts j)) as [[|r|r]|]; mem_simpl;
        [| | | exfalso; apply Hflow; reflexivity].
      * unfold mem_counters_exact. mem_simpl. stats_simpl.
        repeat split; [assumption|usize_lia..].
      * destruct (_ <? _);
          (unfold mem_counters_exact; mem_simpl; stats_simpl;
           repeat split; [assumption|usize_lia..]).
      * unfold mem_counters_exact. mem_simpl. stats_simpl.
        repeat split; [assumption|usize_lia..].
  - intros cfg q q' (Hrx & Hp & Hpr & Hb) _ Hf. unfold Memory.fire_retry in Hf.
    destruct (Memory.timers q) as [|[d j] rest] eqn:Ht; [discriminate|].
    unfold Memory.send in Hf. mem_simpl. rewrite Hrx in Hf. injection Hf as <-.
    unfold mem_counters_exact. mem_simpl.
    repeat split; [assumption|usize_lia..].
  - intros cfg q j (Hrx & Hp & Hpr & Hb) Hroom Hb1 (_ & Hp' & _).
    unfold Memory.enqueue_cancelled in Hp'.
    replace ((0 <? Memory.max_size cfg) && (Memory.max_size cfg <=? pending (Memory.stats q)))
      with false in Hp'.
    2: { destruct Hroom as [H0|Hlt];
         [rewrite H0; reflexivity
         | apply Z.leb_gt in Hlt; rewrite Hlt, Bool.andb_false_r; reflexivity]. }
    cbn [Memory.set_stats Memory.stats Memory.chan Memory.timers pending_add pending] in Hp'.
    rewrite Hp in Hp'. unfold usize_add in Hp'.
    change USIZE_MODULUS with 18446744073709551616 in *.
    rewrite Z.mod_small in Hp' by lia. lia.
Qed.

Section RedisExtra.

Context {Json : Type} (to_string : Job -> Json) (from_str : Json -> option Job).

(** The Redis counters match the list: with an empty list at [new],
    [pending] equals the number of list entries that deserialize (each
    into a job that reads back) and [processing = 0]; [start_worker],
    [enqueue] of a job that reads back (an [RPUSH] that fails is one the
    server did not apply), every worker pass that does not panic (a
    failed [BLPOP] likewise not applied), and another writer's malformed
    entries keep it so.  A reply lost after the server applied the
    command breaks it: a lost [RPUSH] reply leaves the job in the list
    uncounted, a lost [BLPOP] reply drops a counted job from the list. *)
Theorem redis_counters_exact_invariant :
  redis_counters_exact to_string from_str (RedisJobQueue_new []) /\
  (forall q, redis_counters_exact to_string from_str q ->
             redis_counters_exact to_string from_str (redis_start_worker q)) /\
  (forall conn_ok q j q' r,
      redis_counters_exact to_string from_str q -> reads_back to_string from_str j ->
      Z.of_nat (List.length (decoded from_str (Redis.pending_list q))) + 1 < USIZE_MODULUS ->
      Redis.enqueue to_string conn_ok q j = (q', r) -> redis_counters_exact to_string from_str q') /\
  (forall h pop_ok push_ok q,
      redis_counters_exact to_string from_str q ->
      let p := Redis.worker_pass to_string from_str h pop_ok push_ok q in
      flow p <> Unwind -> redis_counters_exact to_string from_str (next p)) /\
  (forall q v, redis_counters_exact to_string from_str q -> from_str v = None ->
               redis_counters_exact to_string from_str (Redis.external_push q v)) /\
  (forall q j, redis_counters_exact to_string from_str q ->
               from_str (to_string j) = Some j ->
               ~ redis_counters_exact to_string from_str (fst (Redis.enqueue_reply_lost to_string q j))) /\
  (forall q v rest j, redis_counters_exact to_string from_str q ->
               Redis.running q = true -> Redis.pending_list q = v :: rest -> from_str v = Some j ->
               ~ redis_counters_exact to_string from_str (next (Redis.worker_pass_pop_lost q))).
Proof.
  split; [|split; [|split; [|split; [|split; [|split]]]]].
  - unfold redis_counters_exact. cbn. unfold USIZE_MODULUS. repeat split; [lia..|constructor].
  - intros q Hq. exact Hq.
  - intros conn_ok q j q' r (Hp & Hpr & Hb & Hf) Hj Hb1 He.
    unfold Redis.enqueue, Redis.rpush in He.
    destruct conn_ok; injection He as <- _;
      [|unfold redis_counters_exact; repeat split; assumption].
    unfold redis_counters_exact. redis_cbn. stats_simpl.
    rewrite decoded_app. cbn [decoded]. rewrite (reads_back_self _ _ _ Hj).
    repeat split; [usize_lia|assumption|usize_lia|].
    apply Forall_app. split; [assumption|]. constructor; [assumption|constructor].
  - intros h pop_ok push_ok q (Hp & Hpr & Hb & Hf) p Hflow. subst p.
    unfold Redis.worker_pass in *.
    destruct (Redis.running q); cbn [negb] in *;
      [|unfold redis_counters_exact; redis_cbn; repeat split; assumption].
    destruct pop_ok; cbn [negb] in *;
      [|unfold redis_counters_exact; redis_cbn; repeat split; assumption].
    destruct (Redis.pending_list q) as [|v rest] eqn:Hl;
      [unfold redis_counters_exact; redis_cbn; rewrite Hl; repeat split; assumption|].
    unfold Redis.process in *. cbn [decoded] in Hp, Hb, Hf.
    destruct (from_str v) as [j0|] eqn:Hv.
    + apply Forall_cons_iff in Hf. destruct Hf as [Hj0 Hf].
      pose proof (reads_back_bump _ _ _ Hj0) as Hj1.
      destruct (h (bump_attempts j0)) as [[|r|r]|]; redis_cbn;
        [| | | exfalso; apply Hflow; reflexivity].
      * unfold redis_counters_exact. redis_cbn. stats_simpl.
        repeat split; [usize_lia..|assumption].
      * destruct (_ <? _); [destruct push_ok|];
          (unfold redis_counters_exact; redis_cbn; stats_simpl;
           rewrite ?decoded_app; cbn [decoded];
           rewrite ?(reads_back_self _ _ _ Hj1);
           repeat split; [usize_lia..|]);
          [apply Forall_app; split; [assumption|constructor; [assumption|constructor]]
          | assumption | assumption].
      * unfold redis_counters_exact. redis_cbn. stats_simpl.
        repeat split; [usize_lia..|assumption].
    + unfold redis_counters_exact. redis_cbn. stats_simpl.
      repeat split; assumption.
  - intros q v (Hp & Hpr & Hb & Hf) Hv. unfold redis_counters_exact, Redis.external_push.
    redis_cbn. rewrite decoded_app. cbn [decoded]. rewrite Hv, app_nil_r.
    repeat split; assumption.
  - intros q j (Hp & _) Hj (Hp' & _).
    unfold Redis.enqueue_reply_lost in Hp'. cbn [fst] in Hp'. redis_cbn.
    rewrite decoded_app in Hp'. cbn [decoded] in Hp'. rewrite Hj in Hp'.
    rewrite length_app in Hp'. cbn [List.length] in Hp'. lia.
  - intros q v rest j (Hp & _) Hr Hl Hv (Hp' & _).
    unfold Redis.worker_pass_pop_lost in Hp'. rewrite Hr in Hp'. cbn [negb] in Hp'.
    redis_cbn. rewrite Hl in Hp'.
    rewrite Hl in Hp. cbn [decoded tl] in Hp, Hp'. rewrite Hv in Hp.
    cbn [List.length] in Hp. lia.
Qed.

(** Redis [enqueue] either appends the serialized job and counts it in
    [pending], or, when [RPUSH] fails without the server applying it,
    returns [Backend] with the queue unchanged; it never reports
    [QueueFull].  When the [RPUSH] reply is lost after the server appended
    the value, [enqueue] also returns [Backend] and counts nothing, yet the
    job is in the list: a worker then hands it to the handler and takes it
    off [pending], which on a fresh queue ([pending = 0]) wraps to
    [2^64 - 1]. *)
Theorem redis_enqueue_reply_lost_uncounted :
  (forall conn_ok (q : Redis.Queue Json) j,
    (exists msg, Redis.enqueue to_string conn_ok q j = (q, Err (Backend msg))) \/
    Redis.enqueue to_string conn_ok q j =
    (Redis.mkQueue (pending_add (Redis.stats q) 1) (Redis.pending_list q ++ [to_string j])
                   (Redis.running q) (Redis.logs q), Ok tt)) /\
  (forall h push_ok (q : Redis.Queue Json) j,
    Redis.running q = true -> Redis.pending_list q = [] ->
    from_str (to_string j) = Some j -> final_outcome (h (bump_attempts j)) = true ->
    let q1 := fst (Redis.enqueue_reply_lost to_string q j) in
    let p := Redis.worker_pass to_string from_str h true push_ok q1 in
    (exists msg, snd (Redis.enqueue_reply_lost to_string q j) = Err (Backend msg)) /\
    Redis.stats q1 = Redis.stats q /\ Redis.pending_list q1 = [to_string j] /\
    invoked p = Some (bump_attempts j) /\ Redis.pending_list (next p) = [] /\
    pending (Redis.stats (next p)) = usize_sub (pending (Redis.stats q)) 1).
Proof.
  split.
  - intros conn_ok q j. unfold Redis.enqueue, Redis.rpush. destruct conn_ok.
    + right. reflexivity.
    + left. eexists. reflexivity.
  - intros h push_ok q j Hr Hl Hj Hf. cbv zeta.
    unfold Redis.enqueue_reply_lost, Redis.worker_pass. cbn [fst snd].
    redis_cbn. rewrite Hl, Hr. cbn [negb app].
    unfold Redis.process. rewrite Hj.
    destruct (h (bump_attempts j)) as [[|r|r]|]; try discriminate Hf;
      redis_cbn; stats_simpl; repeat split; eexists; reflexivity.
Qed.

(** A Redis worker whose [running] flag is false leaves its loop at once:
    a run of any length calls no handler and changes nothing.  A pass
    whose [BLPOP] fails without the server applying it only appends an
    error log.  A pass whose [BLPOP] reply is lost after the server popped
    the head of the list calls no handler and leaves the stats as they
    were (the popped job stays counted in [pending]), but the head is gone
    from the list. *)
Theorem redis_no_pop_passes (h : Handler) (push_ok : nat -> bool) (q : Redis.Queue Json) :
  (Redis.running q = false ->
   forall fuel, Redis.run to_string from_str h push_ok fuel q = (q, [])) /\
  (Redis.running q = true -> forall b,
   let p := Redis.worker_pass to_string from_str h false b q in
   flow p = Continue /\ invoked p = None /\
   Redis.stats (next p) = Redis.stats q /\ Redis.pending_list (next p) = Redis.pending_list q /\
   Redis.logs (next p) = Redis.logs q ++ [LogError "Redis BLPOP error"%string]) /\
  (Redis.running q = true ->
   let p := Redis.worker_pass_pop_lost q in
   flow p = Continue /\ invoked p = None /\
   Redis.stats (next p) = Redis.stats q /\ Redis.pending_list (next p) = tl (Redis.pending_list q) /\
   Redis.logs (next p) = Redis.logs q ++ [LogError "Redis BLPOP error"%string]).
Proof.
  split; [|split].
  - intros Hr fuel. destruct fuel; cbn [Redis.run]; [reflexivity|].
    unfold Redis.worker_pass. rewrite Hr. reflexivity.
  - intros Hr b. cbv zeta. unfold Redis.worker_pass. rewrite Hr. cbn [negb].
    redis_cbn. repeat split; reflexivity.
  - intros Hr. cbv zeta. unfold Redis.worker_pass_pop_lost. rewrite Hr. cbn [negb].
    redis_cbn. repeat split; reflexivity.
Qed.

End RedisExtra.

(** Failed is final on both backends. *)
(** A [Failed] result is final on both backends, whatever attempts are
    left: the job leaves the queue, [failed] grows by one, [pending] drops
    by one and [processing] is back to its value, and it is neither put
    back in the channel nor in a retry task, nor pushed back to Redis. *)
Theorem failed_never_retried (reason : string) :
  (forall (h : Handler) (q : Memory.Queue) (j : Job) (rest : list Job),
      Memory.chan q = j :: rest -> h (bump_attempts j) = Returned (Failed reason) ->
      is_usize (processing (Memory.stats q)) ->
      exists p, Memory.worker_pass h q = Some p /\
      flow p = Continue /\ invoked p = Some (bump_attempts j) /\
      Memory.chan (next p) = rest /\ Memory.timers (next p) = Memory.timers q /\
      Memory.stats (next p) =
        mkStats (usize_sub (pending (Memory.stats q)) 1) (processing (Memory.stats q))
                (completed (Memory.stats q)) (usize_add (failed (Memory.stats q)) 1)) /\
  (forall (Json : Type) (to_string : Job -> Json) (from_str : Json -> option Job)
          (h : Handler) (push_ok : bool) (q : Redis.Queue Json) (v : Json) (rest : list Json)
          (j : Job),
      Redis.running q = true -> Redis.pending_list q = v :: rest -> from_str v = Some j ->
      h (bump_attempts j) = Returned (Failed reason) ->
      is_usize (processing (Redis.stats q)) ->
      let p := Redis.worker_pass to_string from_str h true push_ok q in
      flow p = Continue /\ invoked p = Some (bump_attempts j) /\
      Redis.pending_list (next p) = rest /\
      Redis.stats (next p) =
        mkStats (usize_sub (pending (Redis.stats q)) 1) (processing (Redis.stats q))
                (completed (Redis.stats q)) (usize_add (failed (Redis.stats q)) 1)).
Proof.
  split.
  - intros h q j rest Hc Hf Hpr. eexists. split; [unfold Memory.worker_pass; rewrite Hc; reflexivity|].
    unfold Memory.process. rewrite Hf. mem_simpl. stats_simpl.
    rewrite usize_add_sub_cancel by exact Hpr. repeat split; reflexivity.
  - intros Json to_string from_str h push_ok q v rest j Hr Hl Hv Hf Hpr. cbv zeta.
    unfold Redis.worker_pass. rewrite Hr, Hl. cbn [negb].
    unfold Redis.process. rewrite Hv, Hf.
    cbn [next flow invoked Redis.pending_list Redis.stats Redis.set_stats Redis.set_list Redis.log].
    stats_simpl. rewrite usize_add_sub_cancel by exact Hpr. repeat split; reflexivity.
Qed.


Lemma usize_sub_sub (x a b : Z) : usize_sub (usize_sub x a) b = usize_sub x (a + b).
Proof. unfold usize_sub. rewrite Zminus_mod_idemp_l. f_equal. lia. Qed.

Lemma usize_add_add (x a b : Z) : usize_add (usize_add x a) b = usize_add x (a + b).
Proof. unfold usize_add. rewrite Zplus_mod_idemp_l. f_equal. lia. Qed.

Lemma usize_add_0 (x : Z) : is_usize x -> usize_add x 0 = x.
Proof. unfold is_usize, usize_add. intros. rewrite Z.add_0_r. apply Z.mod_small. lia. Qed.

Lemma usize_sub_0 (x : Z) : is_usize x -> usize_sub x 0 = x.
Proof. unfold is_usize, usize_sub. intros. rewrite Z.sub_0_r. apply Z.mod_small. lia. Qed.

Lemma usize_range (x y : Z) : is_usize (usize_add x y) /\ is_usize (usize_sub x y).
Proof.
  unfold is_usize, usize_add, usize_sub, USIZE_MODULUS.
  split; split; try apply Z.mod_pos_bound; try apply Z.mod_pos_bound; lia.
Qed.

Lemma mem_run_final (h : Handler) (Hfinal : forall j, final_outcome (h j) = true) :
  forall (l : list Job) (fuel : nat) (q : Memory.Queue),
  Memory.chan q = l -> Memory.timers q = [] -> Memory.tx_open q = true ->
  (List.length l <= fuel)%nat -> stats_wf (Memory.stats q) ->
  let r := Memory.run h fuel q in
  snd r = map bump_attempts l /\ Memory.chan (fst r) = [] /\ Memory.timers (fst r) = [] /\
  Memory.stats (fst r) =
    mkStats (usize_sub (pending (Memory.stats q)) (Z.of_nat (List.length l)))
            (processing (Memory.stats q))
            (usize_add (completed (Memory.stats q)) (count_success h l))
            (usize_add (failed (Memory.stats q)) (count_failed h l)).
Proof.
  induction l as [|j rest IH]; intros fuel q Hc Ht Htx Hfuel (Hp & Hpr & Hco & Hfa); cbv zeta.
  - rewrite mem_run_idle.
    2: { apply mem_pass_idle; assumption. }
    2: { unfold Memory.fire_retry. rewrite Ht. reflexivity. }
    cbn [fst snd map]. unfold count_success, count_failed. cbn [filter List.length Z.of_nat].
    rewrite usize_sub_0, !usize_add_0 by assumption.
    repeat split; try assumption. destruct (Memory.stats q); reflexivity.
  - destruct fuel as [|fuel]; [cbn in Hfuel; lia|].
    pose proof (Hfinal (bump_attempts j)) as Hj.
    pose proof (mem_pass_head h q j rest Hc) as Hpass.
    unfold Memory.process in Hpass.
    destruct (h (bump_attempts j)) as [[|r|r]|] eqn:Hh; try discriminate Hj.
    + rewrite (mem_run_continue h fuel q _ Hpass eq_refl).
      match type of Hpass with _ = Some ?p =>
        edestruct (IH fuel (next p)) as (Hcalls & Hc' & Ht' & Hs') end;
        mem_simpl; try reflexivity; try assumption; [cbn in Hfuel; lia| |].
      * unfold stats_wf. stats_simpl.
        refine (conj _ (conj _ (conj _ _))); first [apply usize_range | assumption].
      * cbn [fst snd calls_of app map]. rewrite Hcalls, Hc', Ht', Hs'.
        stats_simpl. rewrite usize_add_sub_cancel by assumption.
        rewrite usize_sub_sub, usize_add_add.
        unfold count_success, count_failed. cbn [filter]. rewrite Hh. cbn [is_success negb List.length].
        repeat split; f_equal; f_equal; rewrite ?Nat2Z.inj_succ; lia.
    + rewrite (mem_run_continue h fuel q _ Hpass eq_refl).
      match type of Hpass with _ = Some ?p =>
        edestruct (IH fuel (next p)) as (Hcalls & Hc' & Ht' & Hs') end;
        mem_simpl; try reflexivity; try assumption; [cbn in Hfuel; lia| |].
      * unfold stats_wf. stats_simpl.
        refine (conj _ (conj _ (conj _ _))); first [apply usize_range | assumption].
      * cbn [fst snd calls_of app map]. rewrite Hcalls, Hc', Ht', Hs'.
        stats_simpl. rewrite usize_add_sub_cancel by assumption.
        rewrite usize_sub_sub, usize_add_add.
        unfold count_success, count_failed. cbn [filter]. rewrite Hh. cbn [is_success negb List.length].
        repeat split; f_equal; f_equal; rewrite ?Nat2Z.inj_succ; lia.
Qed.

Lemma app_handler_outcome (j : Job) :
  final_outcome (app_handler j) = true /\ is_success (app_handler j) = known_type j.
Proof.
  unfold app_handler, known_type.
  destruct (String.eqb (job_type j) "email"); [split; reflexivity|].
  destruct (String.eqb (job_type j) "cleanup"); split; reflexivity.
Qed.

(** With the handler [main.rs] installs, an in-memory worker hands every
    queued job to the handler exactly once, in channel order; it leaves
    nothing queued or scheduled, counts [email] and [cleanup] jobs in
    [completed] and every other job type in [failed]. *)
Theorem app_handler_run_once (l : list Job) (fuel : nat) (q : Memory.Queue) :
  Memory.chan q = l -> Memory.timers q = [] -> Memory.tx_open q = true ->
  (List.length l <= fuel)%nat -> stats_wf (Memory.stats q) ->
  let r := Memory.run app_handler fuel q in
  snd r = map bump_attempts l /\ Memory.chan (fst r) = [] /\ Memory.timers (fst r) = [] /\
  Memory.stats (fst r) =
    mkStats (usize_sub (pending (Memory.stats q)) (Z.of_nat (List.length l)))
            (processing (Memory.stats q))
            (usize_add (completed (Memory.stats q)) (count_known l))
            (usize_add (failed (Memory.stats q)) (count_unknown l)).
Proof.
  intros Hc Ht Htx Hf Hwf.
  assert (Hk : count_success app_handler l = count_known l /\
               count_failed app_handler l = count_unknown l).
  { unfold count_success, count_failed, count_known, count_unknown.
    split; do 2 f_equal; apply filter_ext; intros j;
      rewrite (proj2 (app_handler_outcome (bump_attempts j))); reflexivity. }
  destruct Hk as [Hs Hfl]. rewrite <- Hs, <- Hfl.
  apply mem_run_final; try assumption.
  intros j. apply app_handler_outcome.
Qed.

Section RedisRunFinal.

Context {Json : Type} (to_string : Job -> Json) (from_str : Json -> option Job).

Lemma redis_run_final (h : Handler) (Hfinal : forall j, final_outcome (h j) = true)
    (push_ok : nat -> bool) :
  forall (l : list Job) (fuel : nat) (q : Redis.Queue Json),
  Forall (fun j => from_str (to_string j) = Some j) l ->
  Redis.pending_list q = map to_string l -> Redis.running q = true ->
  (List.length l <= fuel)%nat -> stats_wf (Redis.stats q) ->
  let r := Redis.run to_string from_str h push_ok fuel q in
  snd r = map bump_attempts l /\ Redis.pending_list (fst r) = [] /\
  Redis.stats (fst r) =
    mkStats (usize_sub (pending (Redis.stats q)) (Z.of_nat (List.length l)))
            (processing (Redis.stats q))
            (usize_add (completed (Redis.stats q)) (count_success h l))
            (usize_add (failed (Redis.stats q)) (count_failed h l)).
Proof.
  induction l as [|j rest IH]; intros fuel q Hrt Hl Hr Hfuel (Hp & Hpr & Hco & Hfa); cbv zeta.
  - rewrite (redis_run_idle to_string from_str h push_ok fuel q Hl Hr).
    cbn [fst snd map]. unfold count_success, count_failed. cbn [filter List.length Z.of_nat].
    rewrite usize_sub_0, !usize_add_0 by assumption.
    repeat split; try assumption. destruct (Redis.stats q); reflexivity.
  - destruct fuel as [|fuel]; [cbn in Hfuel; lia|].
    pose proof (Hfinal (bump_attempts j)) as Hj.
    apply Forall_cons_iff in Hrt. destruct Hrt as [Hrt0 Hrt].
    cbn [map] in Hl.
    assert (Hpass : Redis.worker_pass to_string from_str h true (push_ok fuel) q =
                    Redis.process to_string from_str h (push_ok fuel)
                      (Redis.set_list q (map to_string rest)) (to_string j)).
    { unfold Redis.worker_pass. rewrite Hr, Hl. reflexivity. }
    unfold Redis.process in Hpass. rewrite Hrt0 in Hpass.
    destruct (h (bump_attempts j)) as [[|r|r]|] eqn:Hh; try discriminate Hj;
    (rewrite (redis_run_continue to_string from_str h push_ok fuel q _ _ Hl);
     [| rewrite Hpass; reflexivity]);
    rewrite Hpass;
    (match goal with
     | |- context [Redis.run _ _ _ _ fuel ?q1] =>
       destruct (IH fuel q1) as (Hcalls & Hl' & Hs');
       [exact Hrt | | | cbn in Hfuel; exact (le_S_n _ _ Hfuel) | |]
     end);
    redis_cbn; try reflexivity; try assumption;
    try (unfold stats_wf; stats_simpl;
         refine (conj _ (conj _ (conj _ _))); first [apply usize_range | assumption]);
    (cbn [fst snd calls_of app map]; rewrite Hcalls, Hl', Hs';
     stats_simpl; rewrite usize_add_sub_cancel by assumption;
     rewrite usize_sub_sub, usize_add_add;
     unfold count_success, count_failed; cbn [filter]; rewrite Hh;
     cbn [is_success negb List.length];
     repeat split; f_equal; f_equal; rewrite ?Nat2Z.inj_succ; lia).
Qed.

End RedisRunFinal.

Lemma digit_value_char (d : Z) : 0 <= d <= 9 -> digit_value (digit_char d) = Some d.
Proof.
  intros Hd.
  assert (d = 0 \/ d = 1 \/ d = 2 \/ d = 3 \/ d = 4 \/ d = 5 \/ d = 6 \/ d = 7 \/ d = 8 \/ d = 9)
    as Hc by lia.
  repeat destruct Hc as [-> | Hc]; [reflexivity ..|]. subst d. reflexivity.
Qed.

Lemma digits_value_app (acc : Z) (s1 s2 : string) :
  digits_value acc (String.append s1 s2) =
  match digits_value acc s1 with Some a => digits_value a s2 | None => None end.
Proof.
  revert acc. induction s1 as [|c s1 IH]; intros acc; [reflexivity|].
  cbn [String.append digits_value]. destruct (digit_value c) as [d|]; [|reflexivity].
  destruct (acc * 10 + d <? USIZE_MODULUS); [apply IH | reflexivity].
Qed.

Lemma decimal_aux_value (fuel : nat) :
  forall n, 0 <= n < 10 ^ Z.of_nat fuel ->
  digits_value 0 (decimal_aux fuel n) = if n <? USIZE_MODULUS then Some n else None.
Proof.
  induction fuel as [|f IH]; intros n Hn.
  - cbn in Hn. assert (n = 0) as -> by lia. reflexivity.
  - cbn [decimal_aux]. destruct (n <? 10) eqn:Hsmall.
    + apply Z.ltb_lt in Hsmall. cbn [digits_value].
      rewrite digit_value_char by lia. rewrite Z.mul_0_l, Z.add_0_l.
      destruct (n <? USIZE_MODULUS); reflexivity.
    + apply Z.ltb_ge in Hsmall.
      rewrite digits_value_app, IH.
      2: { split; [apply Z.div_pos; lia|]. apply Z.div_lt_upper_bound; [lia|].
           rewrite Nat2Z.inj_succ, Z.pow_succ_r in Hn by lia. lia. }
      pose proof (Z.div_mod n 10) as Hdm. pose proof (Z.mod_pos_bound n 10) as Hmb.
      destruct (n / 10 <? USIZE_MODULUS) eqn:Hq.
      * cbn [digits_value]. rewrite digit_value_char by lia.
        replace (n / 10 * 10 + n mod 10) with n by lia. reflexivity.
      * apply Z.ltb_ge in Hq. replace (n <? USIZE_MODULUS) with false; [reflexivity|].
        symmetry. apply Z.ltb_ge. lia.
Qed.

Lemma decimal_aux_head (fuel : nat) :
  forall n, 0 <= n ->
  decimal_aux fuel n = EmptyString \/
  exists c rest, decimal_aux fuel n = String c rest /\ digit_value c <> None.
Proof.
  induction fuel as [|f IH]; intros n Hn; [left; reflexivity|].
  right. cbn [decimal_aux]. destruct (n <? 10) eqn:Hsmall.
  - apply Z.ltb_lt in Hsmall. eexists _, _. split; [reflexivity|].
    rewrite digit_value_char by lia. discriminate.
  - destruct (IH (n / 10)) as [He | (c & rest & He & Hc)]; [apply Z.div_pos; lia| |].
    + rewrite He. eexists _, _. split; [reflexivity|].
      rewrite digit_value_char by (pose proof (Z.mod_pos_bound n 10); lia). discriminate.
    + rewrite He. exists c, (String.append rest (String (digit_char (n mod 10)) EmptyString)).
      split; [reflexivity | exact Hc].
Qed.

Lemma decimal_fuel (n : Z) : 0 <= n -> 0 <= n < 10 ^ Z.of_nat (Z.to_nat (Z.log2 n + 1)).
Proof.
  intros Hn. split; [exact Hn|].
  rewrite Z2Nat.id by (pose proof (Z.log2_nonneg n); lia).
  apply Z.lt_le_trans with (2 ^ (Z.log2 n + 1)).
  - destruct (Z.eq_dec n 0) as [->|Hnz]; [reflexivity|].
    rewrite Z.add_1_r. apply Z.log2_spec. lia.
  - apply Z.pow_le_mono_l. split; [lia|lia].
Qed.

(** [s.parse::<usize>()] reads back the decimal text of a number, with or
    without a leading [+], exactly when it fits in 64 bits. *)
Lemma parse_usize_decimal (n : Z) : 0 <= n ->
  parse_usize (decimal n) = (if n <? USIZE_MODULUS then Some n else None) /\
  parse_usize (String "+" (decimal n)) = (if n <? USIZE_MODULUS then Some n else None).
Proof.
  intros Hn. pose proof (decimal_aux_value _ n (decimal_fuel n Hn)) as Hv.
  unfold decimal in *.
  destruct (decimal_aux_head (Z.to_nat (Z.log2 n + 1)) n Hn) as [He | (c & rest & He & Hc)].
  - exfalso. destruct (Z.to_nat (Z.log2 n + 1)) eqn:Hf.
    + pose proof (Z.log2_nonneg n). lia.
    + cbn [decimal_aux] in He. destruct (n <? 10).
      * discriminate He.
      * destruct (decimal_aux n0 (n / 10)); discriminate He.
  - rewrite He in *. split.
    + unfold parse_usize. destruct (Ascii.eqb c "+") eqn:Hplus; [|exact Hv].
      apply Ascii.eqb_eq in Hplus. subst c. exfalso. apply Hc. reflexivity.
    + exact Hv.
Qed.

Lemma parse_usize_minus (s : string) : parse_usize (String "-" s) = None.
Proof. reflexivity. Qed.

Lemma env_usize_cases (env : Env) (name : string) (default n : Z) (s : string) :
  0 <= n ->
  ((env name = Some (decimal n) \/ env name = Some (String "+" (decimal n))) ->
   env_usize env name default = if n <? USIZE_MODULUS then n else default) /\
  ((env name = None \/ env name = Some EmptyString \/ env name = Some (String "-" s)) ->
   env_usize env name default = default).
Proof.
  intros Hn. destruct (parse_usize_decimal n Hn) as [H1 H2]. unfold env_usize. split.
  - intros [He|He]; rewrite He; [rewrite H1 | rewrite H2];
      destruct (n <? USIZE_MODULUS); reflexivity.
  - intros [He|[He|He]]; rewrite He; reflexivity.
Qed.

(** [InMemoryJobQueue::from_env] reads [JOB_QUEUE_MAX_SIZE] and
    [JOB_QUEUE_WORKERS] as decimal [usize] values (an optional [+]
    allowed); a value that is unset, empty, negative or does not fit in 64
    bits falls back to the default, 10000 and 4. *)
Theorem memory_config_from_env (env : Env) (n : Z) (s : string) :
  0 <= n ->
  ((env "JOB_QUEUE_MAX_SIZE"%string = Some (decimal n) \/
    env "JOB_QUEUE_MAX_SIZE"%string = Some (String "+" (decimal n))) ->
   Memory.max_size (InMemoryJobQueueConfig_from_env env) =
     if n <? USIZE_MODULUS then n else 10000) /\
  ((env "JOB_QUEUE_MAX_SIZE"%string = None \/ env "JOB_QUEUE_MAX_SIZE"%string = Some EmptyString \/
    env "JOB_QUEUE_MAX_SIZE"%string = Some (String "-" s)) ->
   Memory.max_size (InMemoryJobQueueConfig_from_env env) = 10000) /\
  ((env "JOB_QUEUE_WORKERS"%string = Some (decimal n) \/
    env "JOB_QUEUE_WORKERS"%string = Some (String "+" (decimal n))) ->
   Memory.workers (InMemoryJobQueueConfig_from_env env) =
     if n <? USIZE_MODULUS then n else 4) /\
  ((env "JOB_QUEUE_WORKERS"%string = None \/ env "JOB_QUEUE_WORKERS"%string = Some EmptyString \/
    env "JOB_QUEUE_WORKERS"%string = Some (String "-" s)) ->
   Memory.workers (InMemoryJobQueueConfig_from_env env) = 4).
Proof.
  intros Hn. unfold InMemoryJobQueueConfig_from_env. cbn [Memory.max_size Memory.workers].
  destruct (env_usize_cases env "JOB_QUEUE_MAX_SIZE" 10000 n s Hn).
  destruct (env_usize_cases env "JOB_QUEUE_WORKERS" 4 n s Hn).
  repeat split; assumption.
Qed.

Lemma string_length_append (s1 s2 : string) :
  String.length (String.append s1 s2) = (String.length s1 + String.length s2)%nat.
Proof. induction s1 as [|c s1 IH]; cbn; [reflexivity | rewrite IH; reflexivity]. Qed.

Lemma append_cancel_r (s1 s2 t : string) :
  String.append s1 t = String.append s2 t -> s1 = s2.
Proof.
  revert s2. induction s1 as [|c r IH]; intros s2 H; destruct s2 as [|c' r'].
  - reflexivity.
  - exfalso. apply (f_equal String.length) in H.
    cbn [String.append String.length] in H. rewrite string_length_append in H. lia.
  - exfalso. apply (f_equal String.length) in H.
    cbn [String.append String.length] in H. rewrite string_length_append in H. lia.
  - cbn [String.append] in H. injection H as -> H. f_equal. apply IH. exact H.
Qed.

(** [RedisJobQueueConfig::from_env] reads [JOB_QUEUE_WORKERS] and
    [JOB_QUEUE_POP_TIMEOUT] the same way (defaults 4 and 5); without
    [JOB_QUEUE_NAME] the queue is named [jobs] and its list is at
    [jobs:pending]. *)
Theorem redis_config_from_env (env : Env) (n : Z) (s : string) :
  0 <= n ->
  ((env "JOB_QUEUE_WORKERS"%string = Some (decimal n) \/
    env "JOB_QUEUE_WORKERS"%string = Some (String "+" (decimal n))) ->
   redis_workers (RedisJobQueueConfig_from_env env) =
     if n <? USIZE_MODULUS then n else 4) /\
  ((env "JOB_QUEUE_POP_TIMEOUT"%string = Some (decimal n) \/
    env "JOB_QUEUE_POP_TIMEOUT"%string = Some (String "+" (decimal n))) ->
   pop_timeout (RedisJobQueueConfig_from_env env) =
     if n <? USIZE_MODULUS then n else 5) /\
  ((env "JOB_QUEUE_POP_TIMEOUT"%string = None \/ env "JOB_QUEUE_POP_TIMEOUT"%string = Some EmptyString \/
    env "JOB_QUEUE_POP_TIMEOUT"%string = Some (String "-" s)) ->
   pop_timeout (RedisJobQueueConfig_from_env env) = 5) /\
  (env "JOB_QUEUE_NAME"%string = None ->
   RedisJobQueueConfig_from_env env =
     mkRedisConfig "jobs" (redis_workers (RedisJobQueueConfig_from_env env))
                          (pop_timeout (RedisJobQueueConfig_from_env env)) /\
   pending_key (RedisJobQueueConfig_from_env env) = "jobs:pending"%string).
Proof.
  intros Hn. unfold RedisJobQueueConfig_from_env. cbn [redis_workers pop_timeout].
  destruct (env_usize_cases env "JOB_QUEUE_WORKERS" 4 n s Hn).
  destruct (env_usize_cases env "JOB_QUEUE_POP_TIMEOUT" 5 n s Hn).
  split; [assumption|]. split; [assumption|]. split; [assumption|].
  intros He. rewrite He. split; reflexivity.
Qed.

(** Two Redis queues share their list exactly when they have the same
    [queue_name]. *)
Theorem pending_key_separates_queues (c1 c2 : RedisJobQueueConfig) :
  pending_key c1 = pending_key c2 <-> queue_name c1 = queue_name c2.
Proof.
  unfold pending_key. split; [apply append_cancel_r | intros ->; reflexivity].
Qed.

(** [Job::new] builds a job that can be attempted; after
    [with_max_attempts(k)] it can be attempted exactly when [1 <= k]
    ([k] a [u32]); [delayed] does not change it. *)
Theorem job_constructors_attemptable (now : Z) (uuid jt pl : string) (k : Z) :
  job_ok (Job_new now uuid jt pl) /\
  (job_ok (with_max_attempts (Job_new now uuid jt pl) k) <-> 1 <= k < U32_MODULUS) /\
  (forall j now' d, job_ok (delayed j now' d) <-> job_ok j).
Proof.
  unfold job_ok, U32_MODULUS. cbn. split; [lia|]. split; [lia|].
  intros j now' d. reflexivity.
Qed.


Lemma enqueue_all_cons (cfg : Memory.Config) (q : Memory.Queue) (j : Job) (l : list Job) :
  enqueue_all cfg q (j :: l) =
  (fst (enqueue_all cfg (fst (Memory.enqueue cfg q j)) l),
   snd (Memory.enqueue cfg q j) :: snd (enqueue_all cfg (fst (Memory.enqueue cfg q j)) l)).
Proof.
  cbn [enqueue_all]. destruct (Memory.enqueue cfg q j) as [q1 r]. cbn [fst snd].
  destruct (enqueue_all cfg q1 l); reflexivity.
Qed.

Lemma enqueue_all_fill (cfg : Memory.Config) (Hm : 0 < Memory.max_size cfg < USIZE_MODULUS) :
  forall (l : list Job) (d : nat) (q : Memory.Queue),
  Memory.rx_open q = true ->
  pending (Memory.stats q) = Z.of_nat (List.length (Memory.chan q)) ->
  Z.of_nat (List.length (Memory.chan q) + d) = Memory.max_size cfg ->
  let r := enqueue_all cfg q l in
  snd r = repeat (Ok tt) (Nat.min (List.length l) d) ++
          repeat (Err QueueFull) (List.length l - d) /\
  Memory.chan (fst r) = Memory.chan q ++ firstn d l /\
  pending (Memory.stats (fst r)) =
    Z.of_nat (List.length (Memory.chan q) + Nat.min (List.length l) d).
Proof.
  induction l as [|j l IH]; intros d q Hrx Hp Hcap; cbv zeta.
  - destruct d; cbn; rewrite app_nil_r, Nat.add_0_r; repeat split; exact Hp.
  - rewrite enqueue_all_cons. cbn [fst snd].
    destruct d as [|d].
    + assert (Hfull : Memory.enqueue cfg q j = (q, Err QueueFull)).
      { unfold Memory.enqueue.
        replace ((0 <? Memory.max_size cfg) && (Memory.max_size cfg <=? pending (Memory.stats q)))
          with true; [reflexivity|].
        symmetry. apply andb_true_intro. split; [apply Z.ltb_lt | apply Z.leb_le]; lia. }
      rewrite Hfull. cbn [fst snd].
      destruct (IH 0%nat q Hrx Hp Hcap) as (Hr & Hc & Hp').
      rewrite Hr, Hc, Hp'. cbn [List.length Nat.min repeat app firstn].
      rewrite Nat.sub_0_r, Nat.min_0_r. repeat split.
    + assert (Hacc : Memory.enqueue cfg q j =
                     (Memory.mkQueue (pending_add (Memory.stats q) 1) (Memory.chan q ++ [j])
                        (Memory.rx_open q) (Memory.tx_open q) (Memory.timers q) (Memory.logs q),
                      Ok tt)).
      { unfold Memory.enqueue.
        replace ((0 <? Memory.max_size cfg) && (Memory.max_size cfg <=? pending (Memory.stats q)))
          with false.
        2: { symmetry. apply Bool.andb_false_intro2. apply Z.leb_gt. lia. }
        unfold Memory.send, Memory.set_chan, Memory.set_stats. mem_simpl.
        rewrite Hrx. reflexivity. }
      rewrite Hacc. cbn [fst snd].
      edestruct (IH d) as (Hr & Hc & Hp'); [| | |].
      4: { rewrite Hr, Hc, Hp'. mem_simpl. rewrite length_app, <- app_assoc.
           cbn [List.length Nat.min repeat app firstn Nat.sub].
           split; [reflexivity|]. split; [reflexivity|]. f_equal. lia. }
      * mem_simpl. exact Hrx.
      * mem_simpl. stats_simpl. rewrite length_app. cbn [List.length].
        unfold usize_add. rewrite Hp, Z.mod_small; lia.
      * mem_simpl. rewrite length_app. cbn [List.length]. lia.
Qed.

(** With a capacity [0 < max_size <= MAX_PERMITS], [InMemoryJobQueue::new]
    does not panic, and enqueueing jobs one after another on the new queue
    while no worker runs accepts exactly the first [max_size] jobs, in
    order, and rejects every later one with [QueueFull].  (The channel then
    never holds more than [max_size <= max(max_size, 100)] jobs, so no
    [send] waits.) *)
Theorem mem_capacity_exact (cfg : Memory.Config) (l : list Job) :
  0 < Memory.max_size cfg <= MAX_PERMITS ->
  exists q0, InMemoryJobQueue_new cfg = Some q0 /\
  let m := Z.to_nat (Memory.max_size cfg) in
  let r := enqueue_all cfg q0 l in
  snd r = repeat (Ok tt) (Nat.min (List.length l) m) ++
          repeat (Err QueueFull) (List.length l - m) /\
  Memory.chan (fst r) = firstn m l /\
  pending (Memory.stats (fst r)) = Z.of_nat (Nat.min (List.length l) m).
Proof.
  intros Hm. unfold InMemoryJobQueue_new, Memory.capacity in *.
  change MAX_PERMITS with 2305843009213693951 in *.
  replace (2305843009213693951 <? Z.max (Memory.max_size cfg) 100) with false
    by (symmetry; apply Z.ltb_ge; lia).
  eexists; split; [reflexivity|]. cbv zeta.
  assert (Hm' : 0 < Memory.max_size cfg < USIZE_MODULUS) by (unfold USIZE_MODULUS; lia).
  apply (enqueue_all_fill cfg Hm' l (Z.to_nat (Memory.max_size cfg)));
    [reflexivity | reflexivity | cbn [Memory.chan List.length]; lia].
Qed.

(** An in-memory worker whose handler never asks for a retry and never
    panics hands each queued job to the handler exactly once, in FIFO
    order, and leaves the queue empty; [pending] drops by the number of
    jobs, [completed] and [failed] grow by the numbers of successes and
    failures. *)
Theorem mem_final_handler_each_job_once (h : Handler) (l : list Job) (fuel : nat)
    (q : Memory.Queue) :
  (forall j, final_outcome (h j) = true) ->
  Memory.chan q = l -> Memory.timers q = [] -> Memory.tx_open q = true ->
  (List.length l <= fuel)%nat -> stats_wf (Memory.stats q) ->
  let r := Memory.run h fuel q in
  snd r = map bump_attempts l /\ Memory.chan (fst r) = [] /\ Memory.timers (fst r) = [] /\
  Memory.stats (fst r) =
    mkStats (usize_sub (pending (Memory.stats q)) (Z.of_nat (List.length l)))
            (processing (Memory.stats q))
            (usize_add (completed (Memory.stats q)) (count_success h l))
            (usize_add (failed (Memory.stats q)) (count_failed h l)).
Proof. intros Hfinal. apply mem_run_final. exact Hfinal. Qed.

(** The same on the Redis backend, for a list of serialized jobs whose
    texts deserialize back into the jobs. *)
Theorem redis_final_handler_each_job_once {Json : Type} (to_string : Job -> Json)
    (from_str : Json -> option Job) (h : Handler) (push_ok : nat -> bool)
    (l : list Job) (fuel : nat) (q : Redis.Queue Json) :
  Forall (fun j => from_str (to_string j) = Some j) l ->
  (forall j, final_outcome (h j) = true) ->
  Redis.pending_list q = map to_string l -> Redis.running q = true ->
  (List.length l <= fuel)%nat -> stats_wf (Redis.stats q) ->
  let r := Redis.run to_string from_str h push_ok fuel q in
  snd r = map bump_attempts l /\ Redis.pending_list (fst r) = [] /\
  Redis.stats (fst r) =
    mkStats (usize_sub (pending (Redis.stats q)) (Z.of_nat (List.length l)))
            (processing (Redis.stats q))
            (usize_add (completed (Redis.stats q)) (count_success h l))
            (usize_add (failed (Redis.stats q)) (count_failed h l)).
Proof. intros Hrt Hfinal Hl. apply redis_run_final; assumption. Qed.

(** Jobs left in the Redis list by an earlier process (texts that
    deserialize back into the jobs) are handled by a
    new [RedisJobQueue] after [start_worker], but they were never counted
    in its [pending] (zero at [new]): each [fetch_sub] wraps, and once [k]
    of them have been handled [pending] reads [2^64 - k]. *)
Theorem redis_leftover_jobs_wrap_pending {Json : Type} (to_string : Job -> Json)
    (from_str : Json -> option Job) (h : Handler) (push_ok : nat -> bool)
    (l : list Job) (fuel : nat) :
  Forall (fun j => from_str (to_string j) = Some j) l ->
  (forall j, final_outcome (h j) = true) ->
  l <> [] -> Z.of_nat (List.length l) < USIZE_MODULUS -> (List.length l <= fuel)%nat ->
  let r := Redis.run to_string from_str h push_ok fuel
             (redis_start_worker (RedisJobQueue_new (map to_string l))) in
  snd r = map bump_attempts l /\ Redis.pending_list (fst r) = [] /\
  pending (Redis.stats (fst r)) = USIZE_MODULUS - Z.of_nat (List.length l).
Proof.
  intros Hrt Hfinal Hne Hlen Hfuel. cbv zeta.
  destruct (redis_run_final to_string from_str h Hfinal push_ok l fuel
              (redis_start_worker (RedisJobQueue_new (map to_string l))))
    as (Hcalls & Hl & Hs); try reflexivity; try assumption.
  - unfold stats_wf, is_usize, USIZE_MODULUS. cbn. lia.
  - split; [exact Hcalls|]. split; [exact Hl|]. rewrite Hs. cbn [pending].
    cbn [redis_start_worker RedisJobQueue_new Redis.stats pending].
    assert (Hpos : (0 < List.length l)%nat) by (destruct l; [contradiction | cbn; lia]).
    unfold usize_sub.
    replace (0 - Z.of_nat (List.length l))
      with ((USIZE_MODULUS - Z.of_nat (List.length l)) + (-1) * USIZE_MODULUS) by ring.
    rewrite Z.mod_add by (unfold USIZE_MODULUS; lia).
    apply Z.mod_small. lia.
Qed.

(* ------------------------------------------------------------------ *)
(** ** Those properties at concrete inputs *)
Lemma mem_enqueue_accepts_witness :
  Memory.enqueue Memory.default_config mem_empty email_job =
  (Memory.mkQueue (pending_add (Memory.stats mem_empty) 1) (Memory.chan mem_empty ++ [email_job])
                  (Memory.rx_open mem_empty) (Memory.tx_open mem_empty)
                  (Memory.timers mem_empty) (Memory.logs mem_empty),
   Ok tt).
Proof.
  apply mem_enqueue_accepts; [right; cbn; lia | reflexivity | reflexivity].
Defined.

Lemma mem_counters_exact_invariant_witness :
  mem_counters_exact mem_empty /\
  mem_counters_exact (fst (Memory.enqueue Memory.default_config mem_empty email_job)) /\
  mem_counters_exact
    (next (Memory.process (always (Retry "busy"%string)) (Memory.set_chan mem_one []) email_job)) /\
  mem_counters_exact
    (Memory.set_chan
       (Memory.set_timers
          (next (Memory.process (always (Retry "busy"%string)) (Memory.set_chan mem_one [])
                                email_job)) [])
       [bump_attempts email_job]) /\
  ~ mem_counters_exact (Memory.enqueue_cancelled Memory.default_config mem_empty email_job).
Proof.
  destruct mem_counters_exact_invariant as (H1 & H2 & H3 & H4 & H5).
  split; [apply (H1 Memory.default_config); vm_compute; reflexivity|].
  split; [apply (H2 Memory.default_config mem_empty email_job _
                    (snd (Memory.enqueue Memory.default_config mem_empty email_job)));
          [unfold mem_counters_exact; cbn; lia | reflexivity | cbn; lia
          | apply surjective_pairing]|].
  split; [apply (H3 (always (Retry "busy"%string)) mem_one);
          [unfold mem_counters_exact; cbn; lia | reflexivity | cbn; discriminate]|].
  split; [apply (H4 Memory.default_config
                    (next (Memory.process (always (Retry "busy"%string))
                                          (Memory.set_chan mem_one []) email_job)));
          [unfold mem_counters_exact; cbn; lia | vm_compute; reflexivity
          | vm_compute; reflexivity]|].
  apply (H5 Memory.default_config mem_empty email_job);
    [unfold mem_counters_exact; cbn; lia | right; cbn; lia | cbn; lia].
Defined.

Lemma redis_counters_exact_invariant_witness :
  redis_counters_exact toy_to_string toy_from_str (RedisJobQueue_new []) /\
  redis_counters_exact toy_to_string toy_from_str (redis_start_worker (RedisJobQueue_new [])) /\
  redis_counters_exact toy_to_string toy_from_str
    (fst (Redis.enqueue toy_to_string true redis_empty email_job)) /\
  redis_counters_exact toy_to_string toy_from_str
    (next (Redis.worker_pass toy_to_string toy_from_str (always (Retry "busy"%string))
                             true true redis_one)) /\
  redis_counters_exact toy_to_string toy_from_str (Redis.external_push redis_empty None) /\
  ~ redis_counters_exact toy_to_string toy_from_str
      (fst (Redis.enqueue_reply_lost toy_to_string redis_empty email_job)) /\
  ~ redis_counters_exact toy_to_string toy_from_str (next (Redis.worker_pass_pop_lost redis_one)).
Proof.
  destruct (redis_counters_exact_invariant toy_to_string toy_from_str)
    as (H1 & H2 & H3 & H4 & H5 & H6 & H7).
  split; [exact H1|].
  split; [apply H2; exact H1|].
  split; [apply (H3 true redis_empty email_job _
                    (snd (Redis.enqueue toy_to_string true redis_empty email_job)));
          [unfold redis_counters_exact; cbn; repeat split; [lia..|constructor]
          | intros n; reflexivity | cbn; lia | apply surjective_pairing]|].
  split; [apply (H4 (always (Retry "busy"%string)) true true redis_one);
          [unfold redis_counters_exact; cbn; repeat split;
             [lia..|constructor; [intros n; reflexivity|constructor]]
          | cbn; discriminate]|].
  split; [apply H5; [unfold redis_counters_exact; cbn; repeat split; [lia..|constructor]
                    | reflexivity]|].
  split; [apply H6; [unfold redis_counters_exact; cbn; repeat split; [lia..|constructor]
                    | reflexivity]|].
  apply (H7 redis_one (Some email_job) [] email_job);
    [unfold redis_counters_exact; cbn; repeat split;
       [lia..|constructor; [intros n; reflexivity|constructor]]
    | reflexivity | reflexivity | reflexivity].
Defined.

Lemma redis_enqueue_reply_lost_uncounted_witness :
  let q1 := fst (Redis.enqueue_reply_lost toy_to_string redis_empty email_job) in
  let p := Redis.worker_pass toy_to_string toy_from_str (always Success) true true q1 in
  (exists msg, snd (Redis.enqueue_reply_lost toy_to_string redis_empty email_job) =
               Err (Backend msg)) /\
  Redis.stats q1 = Redis.stats redis_empty /\ Redis.pending_list q1 = [toy_to_string email_job] /\
  invoked p = Some (bump_attempts email_job) /\ Redis.pending_list (next p) = [] /\
  pending (Redis.stats (next p)) = usize_sub (pending (Redis.stats redis_empty)) 1.
Proof.
  apply (proj2 (redis_enqueue_reply_lost_uncounted toy_to_string toy_from_str)
           (always Success) true redis_empty email_job); reflexivity.
Defined.

Lemma redis_no_pop_passes_witness :
  Redis.run toy_to_string toy_from_str (always Success) (fun _ => true) 5
    (RedisJobQueue_new [toy_to_string email_job]) =
    (RedisJobQueue_new [toy_to_string email_job], []) /\
  (let q := redis_start_worker (RedisJobQueue_new [toy_to_string email_job]) in
   let p := Redis.worker_pass toy_to_string toy_from_str (always Success) false true q in
   flow p = Continue /\ invoked p = None /\
   Redis.stats (next p) = Redis.stats q /\ Redis.pending_list (next p) = Redis.pending_list q /\
   Redis.logs (next p) = Redis.logs q ++ [LogError "Redis BLPOP error"%string]) /\
  (let p := Redis.worker_pass_pop_lost redis_one in
   flow p = Continue /\ invoked p = None /\
   Redis.stats (next p) = Redis.stats redis_one /\
   Redis.pending_list (next p) = tl (Redis.pending_list redis_one) /\
   Redis.logs (next p) = Redis.logs redis_one ++ [LogError "Redis BLPOP error"%string]).
Proof.
  split; [|split].
  - apply (proj1 (redis_no_pop_passes toy_to_string toy_from_str (always Success) (fun _ => true)
                    (RedisJobQueue_new [toy_to_string email_job]))).
    reflexivity.
  - apply (proj1 (proj2 (redis_no_pop_passes toy_to_string toy_from_str (always Success)
                    (fun _ => true) (redis_start_worker (RedisJobQueue_new [toy_to_string email_job]))))).
    reflexivity.
  - apply (proj2 (proj2 (redis_no_pop_passes toy_to_string toy_from_str (always Success)
                    (fun _ => true) redis_one))).
    reflexivity.
Defined.

Lemma failed_never_retried_witness :
  (exists p, Memory.worker_pass (always (Failed "bad"%string)) mem_one = Some p /\
      flow p = Continue /\ invoked p = Some (bump_attempts email_job) /\
      Memory.chan (next p) = [] /\ Memory.timers (next p) = Memory.timers mem_one /\
      Memory.stats (next p) =
        mkStats (usize_sub (pending (Memory.stats mem_one)) 1) (processing (Memory.stats mem_one))
                (completed (Memory.stats mem_one)) (usize_add (failed (Memory.stats mem_one)) 1)) /\
  (let p := Redis.worker_pass toy_to_string toy_from_str (always (Failed "bad"%string)) true true
                              redis_one in
   flow p = Continue /\ invoked p = Some (bump_attempts email_job) /\
   Redis.pending_list (next p) = [] /\
   Redis.stats (next p) =
     mkStats (usize_sub (pending (Redis.stats redis_one)) 1) (processing (Redis.stats redis_one))
             (completed (Redis.stats redis_one)) (usize_add (failed (Redis.stats redis_one)) 1)).
Proof.
  destruct (failed_never_retried "bad"%string) as [Hm Hr]. split.
  - apply (Hm (always (Failed "bad"%string)) mem_one email_job []);
      [reflexivity | reflexivity | unfold is_usize, USIZE_MODULUS; cbn; lia].
  - apply (Hr _ toy_to_string toy_from_str (always (Failed "bad"%string)) true redis_one
              (toy_to_string email_job) [] email_job);
      [reflexivity | reflexivity | reflexivity | reflexivity |
       unfold is_usize, USIZE_MODULUS; cbn; lia].
Defined.

Lemma app_handler_run_once_witness :
  let q := Memory.mkQueue (mkStats 3 0 0 0) [email_job; report_job; cleanup_job] true true [] [] in
  let r := Memory.run app_handler 3 q in
  snd r = map bump_attempts [email_job; report_job; cleanup_job] /\
  Memory.chan (fst r) = [] /\ Memory.timers (fst r) = [] /\
  Memory.stats (fst r) =
    mkStats (usize_sub (pending (Memory.stats q)) 3) (processing (Memory.stats q))
            (usize_add (completed (Memory.stats q)) (count_known [email_job; report_job; cleanup_job]))
            (usize_add (failed (Memory.stats q)) (count_unknown [email_job; report_job; cleanup_job])).
Proof.
  apply (app_handler_run_once [email_job; report_job; cleanup_job] 3
           (Memory.mkQueue (mkStats 3 0 0 0) [email_job; report_job; cleanup_job] true true [] []));
    [reflexivity | reflexivity | reflexivity | cbn; lia |
     unfold stats_wf, is_usize, USIZE_MODULUS; cbn; lia].
Defined.

Lemma mem_final_handler_each_job_once_witness :
  let r := Memory.run (always (Failed "bad"%string)) 1 mem_one in
  snd r = map bump_attempts [email_job] /\ Memory.chan (fst r) = [] /\ Memory.timers (fst r) = [] /\
  Memory.stats (fst r) =
    mkStats (usize_sub (pending (Memory.stats mem_one)) 1) (processing (Memory.stats mem_one))
            (usize_add (completed (Memory.stats mem_one))
                       (count_success (always (Failed "bad"%string)) [email_job]))
            (usize_add (failed (Memory.stats mem_one))
                       (count_failed (always (Failed "bad"%string)) [email_job])).
Proof.
  apply (mem_final_handler_each_job_once (always (Failed "bad"%string)) [email_job] 1 mem_one);
    [intros j; reflexivity | reflexivity | reflexivity | reflexivity | cbn; lia |
     unfold stats_wf, is_usize, USIZE_MODULUS; cbn; lia].
Defined.

Lemma redis_final_handler_each_job_once_witness :
  let r := Redis.run toy_to_string toy_from_str (always Success) (fun _ => true) 1 redis_one in
  snd r = map bump_attempts [email_job] /\ Redis.pending_list (fst r) = [] /\
  Redis.stats (fst r) =
    mkStats (usize_sub (pending (Redis.stats redis_one)) 1) (processing (Redis.stats redis_one))
            (usize_add (completed (Redis.stats redis_one)) (count_success (always Success) [email_job]))
            (usize_add (failed (Redis.stats redis_one)) (count_failed (always Success) [email_job])).
Proof.
  apply (redis_final_handler_each_job_once toy_to_string toy_from_str (always Success)
           (fun _ => true) [email_job] 1 redis_one);
    [repeat constructor | intros j; reflexivity | reflexivity | reflexivity | cbn; lia |
     unfold stats_wf, is_usize, USIZE_MODULUS; cbn; lia].
Defined.

Lemma redis_leftover_jobs_wrap_pending_witness :
  let r := Redis.run toy_to_string toy_from_str (always Success) (fun _ => true) 2
             (redis_start_worker (RedisJobQueue_new (map toy_to_string [email_job; cleanup_job]))) in
  snd r = map bump_attempts [email_job; cleanup_job] /\ Redis.pending_list (fst r) = [] /\
  pending (Redis.stats (fst r)) = USIZE_MODULUS - 2.
Proof.
  apply (redis_leftover_jobs_wrap_pending toy_to_string toy_from_str (always Success)
           (fun _ => true) [email_job; cleanup_job] 2);
    [repeat constructor | intros j; reflexivity | discriminate |
     unfold USIZE_MODULUS; cbn; lia | cbn; lia].
Defined.

Lemma memory_config_from_env_witness :
  Memory.max_size (InMemoryJobQueueConfig_from_env memory_env) = 250 /\
  Memory.workers (InMemoryJobQueueConfig_from_env memory_env) = 4.
Proof.
  destruct (memory_config_from_env memory_env 250 "3"%string) as (H1 & _ & _ & H4); [lia|].
  split; [apply H1; left; reflexivity | apply H4; right; right; reflexivity].
Defined.

Lemma redis_config_from_env_witness :
  redis_workers (RedisJobQueueConfig_from_env redis_env) = 4 /\
  pop_timeout (RedisJobQueueConfig_from_env redis_env) = 5 /\
  pending_key (RedisJobQueueConfig_from_env redis_env) = "jobs:pending"%string.
Proof.
  destruct (redis_config_from_env redis_env (2 ^ 64) ""%string) as (H1 & H2 & _ & H4); [lia|].
  split; [apply H1; right; reflexivity|].
  split; [apply H2; left; reflexivity|].
  apply H4. reflexivity.
Defined.

Lemma mem_capacity_exact_witness :
  exists q0, InMemoryJobQueue_new (Memory.mkConfig 2 1) = Some q0 /\
  let m := Z.to_nat (Memory.max_size (Memory.mkConfig 2 1)) in
  let r := enqueue_all (Memory.mkConfig 2 1) q0 [email_job; cleanup_job; report_job] in
  snd r = repeat (Ok tt) (Nat.min 3 m) ++ repeat (Err QueueFull) (3 - m) /\
  Memory.chan (fst r) = firstn m [email_job; cleanup_job; report_job] /\
  pending (Memory.stats (fst r)) = Z.of_nat (Nat.min 3 m).
Proof.
  apply (mem_capacity_exact (Memory.mkConfig 2 1) [email_job; cleanup_job; report_job]).
  vm_compute. split; [reflexivity|discriminate].
Defined.
